(** * Tremas: exclusion-circle field and rejection sampler of [main.js]

    A shallow embedding of [buildTremas], [generatePointsFromTremas],
    [regenerate] and [uploadAndDraw], in two models.

    Exact model (top level).  JavaScript numbers are read as exact rationals
    ([Q]); the integer-valued ones (loop counters, [level], [count],
    [samples], [attempts]) are [Z]; [Float32Array] copies without rounding.
    It carries the properties that rounding cannot change: counts of rounds,
    of draws and of points, array lengths, closed ranges.

    IEEE model ([Module IEEE]).  JavaScript numbers are binary64 floats,
    every operation rounded as IEEE-754 prescribes, and [Float32Array]
    rounds every number to binary32.  It carries the properties that depend
    on rounding, and the runs that show where the exact reading fails.

    Randomness.  [Math.random] is a cursor into a sequence of draws; every
    call returns the draw under the cursor and advances it.  Code that calls
    [rand] lives in the monad [Rand.M]. *)

From Stdlib Require Import ZArith QArith Qround Qpower List Lia Lqa Bool.
From Stdlib Require Import Sorted Permutation Floats.

Set Warnings "-inexact-float".
Import ListNotations.

Open Scope Q_scope.

(** The comparison [a < b] of two numbers, as a boolean. *)
Definition Qltb (a b : Q) : bool := negb (Qle_bool b a).

(** ** The random source *)

Module Rand.

(** A computation that reads draws: cursor in, value and cursor out. *)
Definition M (A : Type) : Type := nat -> A * nat.

Definition ret {A} (a : A) : M A := fun i => (a, i).

Definition bind {A B} (m : M A) (k : A -> M B) : M B :=
  fun i => let (a, j) := m i in k a j.

End Rand.

Declare Scope rand_scope.
Delimit Scope rand_scope with rand.
Notation "x <- m ;; k" := (Rand.bind m (fun x => k))
  (at level 61, m at next level, right associativity) : rand_scope.
Open Scope rand_scope.

Section Source.

Variable draws : nat -> Q.

(** [function rand() { return Math.random(); }] *)
Definition rand : Rand.M Q := fun i => (draws i, S i).

(** [function randRange(a,b){ return a + (b-a)*rand(); }] *)
Definition randRange (a b : Q) : Rand.M Q :=
  u <- rand ;; Rand.ret (a + (b - a) * u).

(** ** Loops *)

(** [for (let i = i0; ...; i++) body], run for [n] rounds. *)
Fixpoint forM {St : Type} (n : nat) (i : Z) (body : Z -> St -> Rand.M St) (s : St)
  : Rand.M St :=
  match n with
  | O => Rand.ret s
  | S n' => s' <- body i s ;; forM n' (i + 1)%Z body s'
  end.

(** [for (let i = 0; i < bound; i++) body]: the counter and the bound are
    integers that the body does not assign, so the loop makes
    [Z.to_nat bound] rounds. *)
Definition forUpto {St : Type} (bound : Z) (body : Z -> St -> Rand.M St) (s : St)
  : Rand.M St :=
  forM (Z.to_nat bound) 0%Z body s.

(** [while (cond) body], with at most [fuel] rounds: [None] when the
    condition still holds after [fuel] rounds. *)
Fixpoint whileM {St : Type} (fuel : nat) (cond : St -> bool)
    (body : St -> Rand.M St) (s : St) : Rand.M (option St) :=
  if cond s then
    match fuel with
    | O => Rand.ret None
    | S fuel' => s' <- body s ;; whileM fuel' cond body s'
    end
  else Rand.ret (Some s).

(** ** The field of exclusion circles *)

(** [{cx, cy, r, level}] *)
Record Trema : Type := mkTrema { cx : Q; cy : Q; r : Q; level : Z }.

(** [Math.max(1, Math.floor(density * Math.pow(2, level+1) * 30))] *)
Definition levelCount (density : Q) (level : Z) : Z :=
  Z.max 1 (Qfloor (density * Qpower 2 (level + 1) * 30)).

(** [baseRadius * Math.pow(0.5, level)] *)
Definition levelRadius (baseRadius : Q) (level : Z) : Q :=
  let scale := Qpower 0.5 level in
  baseRadius * scale.

(** The body of the inner loop: one circle pushed. *)
Definition pushTrema (level : Z) (levelRadius : Q) (tremas : list Trema)
  : Rand.M (list Trema) :=
  cx <- randRange (-1) 1 ;;
  cy <- randRange (-1) 1 ;;
  u <- rand ;;
  let r := levelRadius * (0.8 + 0.4 * u) in
  Rand.ret (tremas ++ [mkTrema cx cy r level]).

(** The body of the outer loop: the circles of one level. *)
Definition buildLevel (density baseRadius : Q) (level : Z)
    (tremas : list Trema) : Rand.M (list Trema) :=
  let levelRadius := levelRadius baseRadius level in
  let count := levelCount density level in
  forUpto count (fun _ t => pushTrema level levelRadius t) tremas.

Definition buildTremas (depth : Z) (density baseRadius : Q)
  : Rand.M (list Trema) :=
  forUpto depth (buildLevel density baseRadius) [].

(** ** The sampler *)

(** Squared distance from [(x,y)] to the centre of [c]. *)
Definition dist2 (x y : Q) (c : Trema) : Q :=
  (x - cx c) * (x - cx c) + (y - cy c) * (y - cy c).

(** The rejection scan, leaving at the first circle that holds the point. *)
Fixpoint insideAny (x y : Q) (tremas : list Trema) : bool :=
  match tremas with
  | [] => false
  | c :: rest =>
      let dx := x - cx c in
      let dy := y - cy c in
      if Qltb (dx * dx + dy * dy) (r c * r c) then true
      else insideAny x y rest
  end.

(** The nearest-level scan, from the running [minD] and [nearLevel]. *)
Fixpoint nearestScan (x y : Q) (tremas : list Trema) (minD : Q)
    (nearLevel : Z) : Q * Z :=
  match tremas with
  | [] => (minD, nearLevel)
  | c :: rest =>
      let d2 := dist2 x y c in
      if Qltb d2 minD then nearestScan x y rest d2 (level c)
      else nearestScan x y rest minD nearLevel
  end.

Definition nearLevel (x y : Q) (tremas : list Trema) : Z :=
  snd (nearestScan x y tremas 1e9 0%Z).

(** [Math.max(...tremas.map(t=>t.level))] of a field with first circle
    level [h] and the other levels [t]. *)
Definition spreadMax (h : Z) (t : list Z) : Z := fold_left Z.max t h.

(** [Math.max(1, tremas.length>0 ? Math.max(...) : 1)] *)
Definition levelDivisor (tremas : list Trema) : Z :=
  Z.max 1 (match map level tremas with
           | [] => 1
           | h :: t => spreadMax h t
           end).

Definition levelFactor (x y : Q) (tremas : list Trema) : Q :=
  inject_Z (nearLevel x y tremas) / inject_Z (levelDivisor tremas).

(** The three arrays the sampler fills. *)
Record Buffers : Type :=
  mkBuffers { positions : list Q; colors : list Q; levels : list Q }.

(** The variables the [while] loop assigns. *)
Record LoopState : Type := mkLoop { bufs : Buffers; attempts : Z }.

(** [positions.length / 2 < samples && attempts < maxAttempts] *)
Definition sampleCond (samples : Z) (st : LoopState) : bool :=
  let maxAttempts := (samples * 10)%Z in
  Qltb (inject_Z (Z.of_nat (length (positions (bufs st)))) / 2)
       (inject_Z samples)
  && (attempts st <? maxAttempts)%Z.

(** One round of the [while] loop. *)
Definition sampleBody (tremas : list Trema) (st : LoopState)
  : Rand.M LoopState :=
  let attempts' := (attempts st + 1)%Z in
  x <- randRange (-1) 1 ;;
  y <- randRange (-1) 1 ;;
  if insideAny x y tremas then Rand.ret (mkLoop (bufs st) attempts')
  else
    cval <- (u <- rand ;; Rand.ret (0.4 + 0.6 * u)) ;;
    c0 <- (u <- rand ;; Rand.ret (0.2 + 0.6 * u)) ;;
    c1 <- (u <- rand ;; Rand.ret (0.35 + 0.55 * u)) ;;
    Rand.ret
      (mkLoop
         (mkBuffers (positions (bufs st) ++ [x; y])
                    (colors (bufs st) ++ [c0; c1; cval])
                    (levels (bufs st) ++ [levelFactor x y tremas]))
         attempts').

Definition sampleInit : LoopState := mkLoop (mkBuffers [] [] []) 0.

(** The [while] loop of the sampler, from its initial state. *)
Definition sampleLoop (fuel : nat) (tremas : list Trema) (samples : Z)
  : Rand.M (option LoopState) :=
  whileM fuel (sampleCond samples) (sampleBody tremas) sampleInit.

(** [new Float32Array(a)]: a copy of the same length (exact here). *)
Definition Float32Array (a : list Q) : list Q := a.

Definition generatePointsFromTremas (fuel : nat) (tremas : list Trema)
    (samples : Z) : Rand.M (option Buffers) :=
  o <- sampleLoop fuel tremas samples ;;
  Rand.ret
    (match o with
     | Some st =>
         Some (mkBuffers (Float32Array (positions (bufs st)))
                         (Float32Array (colors (bufs st)))
                         (Float32Array (levels (bufs st))))
     | None => None
     end).

(** [regenerate], up to the upload: the field, then the batch sampled
    from it with [Math.floor(params.samples)]. *)
Definition regenerate (fuel : nat) (depth : Z) (density baseRadius samples : Q)
  : Rand.M (list Trema * option Buffers) :=
  tremas <- buildTremas depth density baseRadius ;;
  data <- generatePointsFromTremas fuel tremas (Qfloor samples) ;;
  Rand.ret (tremas, data).

End Source.


(** ** The logical view of a batch

    The sampler's three flat arrays hold one [SamplePoint] per accepted
    candidate; [sampleAt] is the point accepted from the candidate drawn at
    cursor [c]. *)

Record SamplePoint : Type :=
  mkSample { position : Q * Q; color : Q * Q * Q; factor : Q }.

Definition flatPositions (pts : list SamplePoint) : list Q :=
  flat_map (fun p => [fst (position p); snd (position p)]) pts.

Definition flatColors (pts : list SamplePoint) : list Q :=
  flat_map (fun p => [fst (fst (color p)); snd (fst (color p)); snd (color p)])
           pts.

Definition flatten (pts : list SamplePoint) : Buffers :=
  mkBuffers (flatPositions pts) (flatColors pts) (map factor pts).

Section View.

Variable draws : nat -> Q.

(** The candidate drawn at cursor [c]. *)
Definition candidate (c : nat) : Q * Q :=
  (-1 + (1 - -1) * draws c, -1 + (1 - -1) * draws (S c)).

Definition accepted (tremas : list Trema) (c : nat) : Prop :=
  insideAny (fst (candidate c)) (snd (candidate c)) tremas = false.

Definition sampleAt (tremas : list Trema) (c : nat) : SamplePoint :=
  mkSample (candidate c)
           (0.2 + 0.6 * draws (3 + c), 0.35 + 0.55 * draws (4 + c),
            0.4 + 0.6 * draws (2 + c))
           (levelFactor (fst (candidate c)) (snd (candidate c)) tremas).

(** The circle pushed by [pushTrema] at cursor [c]. *)
Definition tremaAt (level : Z) (levelRadius : Q) (c : nat) : Trema :=
  mkTrema (-1 + (1 - -1) * draws c) (-1 + (1 - -1) * draws (S c))
          (levelRadius * (0.8 + 0.4 * draws (S (S c)))) level.

End View.

(** ** Properties of a batch *)

(** Point [k] of a batch sits at [(x, y)]. *)
Definition pointAt (out : Buffers) (k : nat) (x y : Q) : Prop :=
  nth_error (positions out) (2 * k) = Some x
  /\ nth_error (positions out) (2 * k + 1) = Some y.

(** [(x, y)] is not inside circle [t]: squared distance at least the
    squared radius. *)
Definition outside (x y : Q) (t : Trema) : Prop :=
  r t * r t <= (x - cx t) * (x - cx t) + (y - cy t) * (y - cy t).

(** The three arrays describe [N] points. *)
Definition parallel (out : Buffers) (N : nat) : Prop :=
  length (positions out) = (2 * N)%nat
  /\ length (colors out) = (3 * N)%nat
  /\ length (levels out) = N.

(** Circle [t], at index [k] of the field, has minimum squared centre
    distance to [(x, y)], and is the earliest such circle. *)
Definition nearest (x y : Q) (tremas : list Trema) (k : nat) (t : Trema)
  : Prop :=
  nth_error tremas k = Some t
  /\ forall j u, nth_error tremas j = Some u ->
                 dist2 x y t <= dist2 x y u
                 /\ ((j < k)%nat -> dist2 x y t < dist2 x y u).

(** The centre of [t] is in the sampling square. *)
Definition inSquare (t : Trema) : Prop :=
  -1 <= cx t <= 1 /\ -1 <= cy t <= 1.

(** The cursors of [m] rounds in a row from cursor [c], each round
    reading [step] draws: an accepted candidate reads five, a pushed circle
    three. *)
Fixpoint strides (step c : nat) (m : nat) : list nat :=
  match m with
  | O => []
  | S m' => c :: strides step (step + c) m'
  end.

(** The levels [0 .. depth-1]. *)
Definition levelsBelow (depth : Z) : list Z :=
  map Z.of_nat (seq 0 (Z.to_nat depth)).

(** The levels of a field built level after level, below level [L]. *)
Definition layout (density : Q) (L : Z) : list Z :=
  flat_map (fun l => repeat l (Z.to_nat (levelCount density l)))
           (levelsBelow L).

(** The count of level [L] as the specification words it:
    [max(1, floor(density * 2^(L+1) * 30))], with the integer power. *)
Definition specCount (density : Q) (L : Z) : Z :=
  Z.max 1 (Qfloor (density * inject_Z (2 ^ (L + 1)) * 30)).

(** What every state of the sampler's loop satisfies: the arrays hold the
    points accepted so far, and the counters stay within the budget. *)
Definition sampleInv (draws : nat -> Q) (tremas : list Trema) (samples : Z)
    (st : LoopState) (c : nat) : Prop :=
  exists cs : list nat,
    bufs st = flatten (map (sampleAt draws tremas) cs)
    /\ Forall (accepted draws tremas) cs
    /\ (Z.of_nat (length cs) <= attempts st)%Z
    /\ (attempts st <= Z.max 0 (samples * 10))%Z
    /\ (Z.of_nat (length cs) <= Z.max 0 samples)%Z.

(** ** The trace of a sampling run

    [rejected] is the fate of a candidate that [insideAny] finds inside a
    circle.  [sampleTrace] records, for a state of the loop started at
    cursor [c0], the cursors [cs] of the accepted candidates and [rs] of
    the rejected ones. *)
Definition rejected (draws : nat -> Q) (tremas : list Trema) (c : nat) : Prop :=
  insideAny (fst (candidate draws c)) (snd (candidate draws c)) tremas = true.

Definition sampleTrace (draws : nat -> Q) (tremas : list Trema) (c0 : nat)
    (st : LoopState) (c : nat) : Prop :=
  exists cs rs : list nat,
    bufs st = flatten (map (sampleAt draws tremas) cs)
    /\ Forall (accepted draws tremas) cs
    /\ Forall (rejected draws tremas) rs
    /\ attempts st = Z.of_nat (length cs + length rs)
    /\ c = (c0 + 5 * length cs + 2 * length rs)%nat
    /\ StronglySorted lt cs
    /\ Forall (fun k => (c0 <= k /\ k + 5 <= c)%nat) cs.

(** [(x, y)] is strictly inside circle [t]. *)
Definition inside (x y : Q) (t : Trema) : Prop :=
  dist2 x y t < r t * r t.

(** A circle with the radius replaced. *)
Definition withRadius (f : Trema -> Q) (t : Trema) : Trema :=
  mkTrema (cx t) (cy t) (f t) (level t).

(** ** The upload

    The part of [uploadAndDraw] that a draw call depends on: the contents
    given to the three buffers by [gl.bufferData], and [currentCount]. *)
Record GLBuffers : Type :=
  mkGL { posBuffer : list Q; colorBuffer : list Q; levelBuffer : list Q;
         currentCount : Q }.

Definition uploadAndDraw (data : Buffers) : GLBuffers :=
  mkGL (positions data) (colors data) (levels data)
       (inject_Z (Z.of_nat (length (positions data))) / 2).

(** [gl.drawArrays(gl.POINTS, 0, count)] with attributes of 2, 3 and 1
    components reads [count] vertices; it stays within the buffers when
    each holds that many. *)
Definition drawWithin (gl : GLBuffers) : Prop :=
  exists N : nat,
    currentCount gl == inject_Z (Z.of_nat N)
    /\ length (posBuffer gl) = (2 * N)%nat
    /\ length (colorBuffer gl) = (3 * N)%nat
    /\ length (levelBuffer gl) = N.

(** * The program in IEEE-754 arithmetic

    The same functions with JavaScript numbers as binary64 floats ([float],
    every operation rounded to nearest, ties to even) and the arrays
    returned as [Float32Array] does: every number rounded to binary32.
    Loop counters, levels and counts stay integers.  This is the model for
    the properties that depend on rounding. *)

Module IEEE.

Local Open Scope float_scope.

(** The integer [z] as a number. *)
Definition Z2F (z : Z) : float :=
  SF2Prim (binary_normalize prec emax z 0 false).

(** The exact value of a finite number, as a rational. *)
Definition F2Q (x : float) : Q :=
  match Prim2SF x with
  | S754_finite s m e => (inject_Z (cond_Zopp s (Zpos m)) * Qpower 2 e)%Q
  | _ => 0%Q
  end.

(** [Math.fround]: the binary32 number nearest to [x] (ties to even; beyond
    the binary32 range, an infinity), which is what a [Float32Array] holds. *)
Definition fround (x : float) : float :=
  match Prim2SF x with
  | S754_finite s m e =>
      SF2Prim (binary_normalize 24 128 (cond_Zopp s (Zpos m)) e s)
  | _ => x
  end.

(** [Math.pow(2, k)] for an integer [k] (and [Math.pow(0.5, k)] as
    [Math_pow2 (-k)]): the power of two, [Infinity] from [k = 1024] on and 0
    from [k = -1075] down. *)
Definition Math_pow2 (k : Z) : float := Z.ldexp 1 k.

(** What [Math.floor] returns is an integer, an infinity or NaN; it is kept
    as such. *)
Inductive Count : Type :=
| Finite (z : Z)
| PlusInfinity
| MinusInfinity
| NotANumber.

Definition Math_floor (x : float) : Count :=
  match Prim2SF x with
  | S754_zero _ => Finite 0
  | S754_finite s m e => Finite (Z.shiftl (cond_Zopp s (Zpos m)) e)
  | S754_infinity false => PlusInfinity
  | S754_infinity true => MinusInfinity
  | S754_nan => NotANumber
  end.

(** [Math.max(1, c)] *)
Definition Math_max1 (c : Count) : Count :=
  match c with
  | Finite z => Finite (Z.max 1 z)
  | PlusInfinity => PlusInfinity
  | MinusInfinity => Finite 1
  | NotANumber => NotANumber
  end.

(** The rounds of [for (let i=0; i<count; i++)]: none when [count] is NaN
    (the comparison is false), [count] of them when it is an integer up to
    2^53; otherwise the loop does not end (the bound is infinite, or the
    counter stops growing at 2^53). *)
Definition rounds (count : Count) : option nat :=
  match count with
  | Finite z => if (z <=? 2 ^ 53)%Z then Some (Z.to_nat z) else None
  | PlusInfinity => None
  | MinusInfinity => Some 0%nat
  | NotANumber => Some 0%nat
  end.

Section Source.

Variable draws : nat -> float.

(** [function rand() { return Math.random(); }] *)
Definition rand : Rand.M float := fun i => (draws i, S i).

(** [function randRange(a,b){ return a + (b-a)*rand(); }] *)
Definition randRange (a b : float) : Rand.M float :=
  u <- rand ;; Rand.ret (a + (b - a) * u).

(** [{cx, cy, r, level}] *)
Record Trema : Type := mkTrema { cx : float; cy : float; r : float; level : Z }.

(** [Math.max(1, Math.floor(density * Math.pow(2, level+1) * 30))] *)
Definition levelCount (density : float) (level : Z) : Count :=
  Math_max1 (Math_floor (density * Math_pow2 (level + 1) * 30)).

(** [baseRadius * Math.pow(0.5, level)] *)
Definition levelRadius (baseRadius : float) (level : Z) : float :=
  let scale := Math_pow2 (- level) in
  baseRadius * scale.

Definition pushTrema (level : Z) (levelRadius : float) (tremas : list Trema)
  : Rand.M (list Trema) :=
  cx <- randRange (-1) 1 ;;
  cy <- randRange (-1) 1 ;;
  u <- rand ;;
  let r := levelRadius * (0.8 + 0.4 * u) in
  Rand.ret (tremas ++ [mkTrema cx cy r level]).

(** The circles of one level; [None] when the inner loop does not end. *)
Definition buildLevel (density baseRadius : float) (level : Z)
    (tremas : list Trema) : Rand.M (option (list Trema)) :=
  let levelRadius := levelRadius baseRadius level in
  let count := levelCount density level in
  match rounds count with
  | Some n =>
      t <- forM n 0%Z (fun _ t => pushTrema level levelRadius t) tremas ;;
      Rand.ret (Some t)
  | None => Rand.ret None
  end.

(** [buildTremas]; [None] when a level's loop does not end. *)
Definition buildTremas (depth : Z) (density baseRadius : float)
  : Rand.M (option (list Trema)) :=
  forUpto depth
          (fun level o =>
             match o with
             | Some tremas => buildLevel density baseRadius level tremas
             | None => Rand.ret None
             end)
          (Some []).

(** The squared distance the code computes from [(x,y)] to the centre of
    [c]. *)
Definition dist2 (x y : float) (c : Trema) : float :=
  (x - cx c) * (x - cx c) + (y - cy c) * (y - cy c).

Fixpoint insideAny (x y : float) (tremas : list Trema) : bool :=
  match tremas with
  | [] => false
  | c :: rest =>
      let dx := x - cx c in
      let dy := y - cy c in
      if dx * dx + dy * dy <? r c * r c then true
      else insideAny x y rest
  end.

Fixpoint nearestScan (x y : float) (tremas : list Trema) (minD : float)
    (nearLevel : Z) : float * Z :=
  match tremas with
  | [] => (minD, nearLevel)
  | c :: rest =>
      let d2 := dist2 x y c in
      if d2 <? minD then nearestScan x y rest d2 (level c)
      else nearestScan x y rest minD nearLevel
  end.

Definition nearLevel (x y : float) (tremas : list Trema) : Z :=
  snd (nearestScan x y tremas 1e9 0%Z).

(** [Math.max(1, tremas.length>0 ? Math.max(...) : 1)] *)
Definition levelDivisor (tremas : list Trema) : Z :=
  Z.max 1 (match map level tremas with
           | [] => 1
           | h :: t => spreadMax h t
           end).

(** [nearLevel / Math.max(1, ...)], a division of two integers held as
    numbers. *)
Definition levelFactor (x y : float) (tremas : list Trema) : float :=
  Z2F (nearLevel x y tremas) / Z2F (levelDivisor tremas).

Record Buffers : Type :=
  mkBuffers { positions : list float; colors : list float;
              levels : list float }.

Record LoopState : Type := mkLoop { bufs : Buffers; attempts : Z }.

(** [positions.length / 2 < samples && attempts < maxAttempts] *)
Definition sampleCond (samples : Z) (st : LoopState) : bool :=
  let maxAttempts := (samples * 10)%Z in
  Qltb (inject_Z (Z.of_nat (length (positions (bufs st)))) / 2)%Q
       (inject_Z samples)
  && (attempts st <? maxAttempts)%Z.

Definition sampleBody (tremas : list Trema) (st : LoopState)
  : Rand.M LoopState :=
  let attempts' := (attempts st + 1)%Z in
  x <- randRange (-1) 1 ;;
  y <- randRange (-1) 1 ;;
  if insideAny x y tremas then Rand.ret (mkLoop (bufs st) attempts')
  else
    cval <- (u <- rand ;; Rand.ret (0.4 + 0.6 * u)) ;;
    c0 <- (u <- rand ;; Rand.ret (0.2 + 0.6 * u)) ;;
    c1 <- (u <- rand ;; Rand.ret (0.35 + 0.55 * u)) ;;
    Rand.ret
      (mkLoop
         (mkBuffers (positions (bufs st) ++ [x; y])
                    (colors (bufs st) ++ [c0; c1; cval])
                    (levels (bufs st) ++ [levelFactor x y tremas]))
         attempts').

Definition sampleInit : LoopState := mkLoop (mkBuffers [] [] []) 0.

Definition sampleLoop (fuel : nat) (tremas : list Trema) (samples : Z)
  : Rand.M (option LoopState) :=
  whileM fuel (sampleCond samples) (sampleBody tremas) sampleInit.

(** [new Float32Array(a)]: every number rounded to binary32. *)
Definition Float32Array (a : list float) : list float := map fround a.

Definition generatePointsFromTremas (fuel : nat) (tremas : list Trema)
    (samples : Z) : Rand.M (option Buffers) :=
  o <- sampleLoop fuel tremas samples ;;
  Rand.ret
    (match o with
     | Some st =>
         Some (mkBuffers (Float32Array (positions (bufs st)))
                         (Float32Array (colors (bufs st)))
                         (Float32Array (levels (bufs st))))
     | None => None
     end).

End Source.

(** ** The logical view *)

(** An accepted point as the loop computes it, in double precision. *)
Record SamplePoint : Type :=
  mkSample { position : float * float; color : float * float * float;
             factor : float }.

(** The three JavaScript arrays holding the points [pts]. *)
Definition flatten (pts : list SamplePoint) : Buffers :=
  mkBuffers
    (flat_map (fun p => [fst (position p); snd (position p)]) pts)
    (flat_map (fun p => [fst (fst (color p)); snd (fst (color p));
                         snd (color p)]) pts)
    (map factor pts).

(** The typed arrays returned for them. *)
Definition stored (pts : list SamplePoint) : Buffers :=
  mkBuffers (Float32Array (positions (flatten pts)))
            (Float32Array (colors (flatten pts)))
            (Float32Array (levels (flatten pts))).

Section View.

Variable draws : nat -> float.

(** The candidate drawn at cursor [c]. *)
Definition candidate (c : nat) : float * float :=
  (-1 + (1 - -1) * draws c, -1 + (1 - -1) * draws (S c)).

(** The point accepted from the candidate drawn at cursor [c]. *)
Definition sampleAt (tremas : list Trema) (c : nat) : SamplePoint :=
  mkSample (candidate c)
           (0.2 + 0.6 * draws (3 + c)%nat, 0.35 + 0.55 * draws (4 + c)%nat,
            0.4 + 0.6 * draws (2 + c)%nat)
           (levelFactor (fst (candidate c)) (snd (candidate c)) tremas).

(** The circle pushed by [pushTrema] at cursor [c]. *)
Definition tremaAt (level : Z) (levelRadius : float) (c : nat) : Trema :=
  mkTrema (-1 + (1 - -1) * draws c) (-1 + (1 - -1) * draws (S c))
          (levelRadius * (0.8 + 0.4 * draws (S (S c)))) level.

End View.

(** ** Runs and their properties *)

Definition accepted (draws : nat -> float) (tremas : list Trema) (c : nat)
  : Prop :=
  insideAny (fst (candidate draws c)) (snd (candidate draws c)) tremas = false.

Definition rejected (draws : nat -> float) (tremas : list Trema) (c : nat)
  : Prop :=
  insideAny (fst (candidate draws c)) (snd (candidate draws c)) tremas = true.

(** What every state of the sampler's loop satisfies, started at cursor
    [c0]: [cs] are the cursors of the candidates accepted so far and [rs] of
    those rejected. *)
Definition sampleTrace (draws : nat -> float) (tremas : list Trema)
    (samples : Z) (c0 : nat) (st : LoopState) (c : nat) : Prop :=
  exists cs rs : list nat,
    bufs st = flatten (map (sampleAt draws tremas) cs)
    /\ Forall (accepted draws tremas) cs
    /\ Forall (rejected draws tremas) rs
    /\ attempts st = Z.of_nat (length cs + length rs)
    /\ c = (c0 + 5 * length cs + 2 * length rs)%nat
    /\ StronglySorted lt cs
    /\ Forall (fun k => (c0 <= k /\ k + 5 <= c)%nat) cs
    /\ (attempts st <= Z.max 0 (samples * 10))%Z
    /\ (Z.of_nat (length cs) <= Z.max 0 samples)%Z.

Definition pointAt (out : Buffers) (k : nat) (x y : float) : Prop :=
  nth_error (positions out) (2 * k) = Some x
  /\ nth_error (positions out) (2 * k + 1) = Some y.

Definition factorAt (out : Buffers) (k : nat) (f : float) : Prop :=
  nth_error (levels out) k = Some f.

Definition colorAt (out : Buffers) (k : nat) (a b cc : float) : Prop :=
  nth_error (colors out) (3 * k) = Some a
  /\ nth_error (colors out) (3 * k + 1) = Some b
  /\ nth_error (colors out) (3 * k + 2) = Some cc.

Definition parallel (out : Buffers) (N : nat) : Prop :=
  length (positions out) = (2 * N)%nat
  /\ length (colors out) = (3 * N)%nat
  /\ length (levels out) = N.

(** The squared distance from [(x,y)] to the centre of [t] in exact
    arithmetic. *)
Definition exactDist2 (x y : float) (t : Trema) : Q :=
  ((F2Q x - F2Q (cx t)) * (F2Q x - F2Q (cx t))
   + (F2Q y - F2Q (cy t)) * (F2Q y - F2Q (cy t)))%Q.

(** *** Containment *)

(** As the specification words it: every position returned is outside
    every circle, squared distance at least the squared radius. *)
Definition containmentStated (tremas : list Trema) (out : Buffers) : Prop :=
  forall k x y, pointAt out k x y ->
                forall t, In t tremas ->
                          (F2Q (r t) * F2Q (r t) <= exactDist2 x y t)%Q.

(** [(x,y)] passes the test of the code against [t]: the squared distance
    computed is not below the squared radius computed. *)
Definition passes (x y : float) (t : Trema) : Prop :=
  (dist2 x y t <? r t * r t) = false.

(** As the code has it: the candidates accepted, in double precision, pass
    the test of the code against every circle. *)
Definition containment (draws : nat -> float) (tremas : list Trema)
    (cs : list nat) : Prop :=
  Forall (fun c => forall t, In t tremas ->
                     passes (fst (candidate draws c)) (snd (candidate draws c)) t)
         cs.

(** *** The order of numbers

    [rank] sends the numbers other than NaN to triples of integers, ordered
    as the comparison of the code orders the numbers. *)
Definition rank (f : spec_float) : Z * Z * Z :=
  match f with
  | S754_infinity true => (-2, 0, 0)%Z
  | S754_finite true m e => (-1, - e, - Zpos m)%Z
  | S754_zero _ => (0, 0, 0)%Z
  | S754_nan => (0, 0, 0)%Z
  | S754_finite false m e => (1, e, Zpos m)%Z
  | S754_infinity false => (2, 0, 0)%Z
  end.

Definition lexlt (a b : Z * Z * Z) : Prop :=
  let '(a1, a2, a3) := a in
  let '(b1, b2, b3) := b in
  (a1 < b1 \/ (a1 = b1 /\ (a2 < b2 \/ (a2 = b2 /\ a3 < b3))))%Z.

(** *** Level attribution *)

Definition topLevel (tremas : list Trema) (m : Z) : Prop :=
  (exists t, In t tremas /\ level t = m)
  /\ forall t, In t tremas -> (level t <= m)%Z.

(** The nearest circle in exact arithmetic, earliest on ties. *)
Definition nearestExact (x y : float) (tremas : list Trema) (k : nat)
    (t : Trema) : Prop :=
  nth_error tremas k = Some t
  /\ forall j u, nth_error tremas j = Some u ->
                 (exactDist2 x y t <= exactDist2 x y u)%Q
                 /\ ((j < k)%nat -> (exactDist2 x y t < exactDist2 x y u)%Q).

(** As the specification words it. *)
Definition attributionStated (tremas : list Trema) (out : Buffers) : Prop :=
  forall k x y f,
    pointAt out k x y -> factorAt out k f ->
    forall i t m,
      nearestExact x y tremas i t -> topLevel tremas m ->
      (F2Q f == inject_Z (level t) / inject_Z (Z.max 1 m))%Q.

(** The nearest circle by the distances the code computes: none has a
    smaller computed distance, and every earlier one has a larger one. *)
Definition nearest (x y : float) (tremas : list Trema) (k : nat) (t : Trema)
  : Prop :=
  nth_error tremas k = Some t
  /\ forall j u, nth_error tremas j = Some u ->
                 (dist2 x y u <? dist2 x y t) = false
                 /\ ((j < k)%nat -> (dist2 x y t <? dist2 x y u) = true).

(** No computed distance from [(x,y)] is NaN. *)
Definition comparable (x y : float) (tremas : list Trema) : Prop :=
  forall u, In u tremas -> is_nan (dist2 x y u) = false.

(** As the code has it, for the candidates accepted: when the computed
    distances are numbers and the nearest is below the starting bound 1e9,
    the factor is the quotient of the nearest level by max(1, maximum
    level), in double precision. *)
Definition attribution (draws : nat -> float) (tremas : list Trema)
    (cs : list nat) : Prop :=
  Forall (fun c =>
            let x := fst (candidate draws c) in
            let y := snd (candidate draws c) in
            forall i t m,
              nearest x y tremas i t -> topLevel tremas m ->
              comparable x y tremas ->
              (dist2 x y t <? 1e9) = true ->
              factor (sampleAt draws tremas c)
              = Z2F (level t) / Z2F (Z.max 1 m))
         cs.

(** *** Colours *)

(** As the specification words it: the channels in [0.2,0.8), [0.35,0.9)
    and [0.4,1). *)
Definition colorsStated (out : Buffers) : Prop :=
  forall k a b cc,
    colorAt out k a b cc ->
    (0.2 <= F2Q a /\ F2Q a < 0.8)%Q
    /\ (0.35 <= F2Q b /\ F2Q b < 0.9)%Q
    /\ (0.4 <= F2Q cc /\ F2Q cc < 1.0)%Q.

(** As the code has it: the batch has one position and one colour per
    accepted candidate; the colour is made of the three draws read after the
    candidate, each through its affine map in double precision, then rounded
    to binary32. *)
Definition colorChannels (draws : nat -> float) (out : Buffers)
    (cs : list nat) : Prop :=
  parallel out (length cs)
  /\ forall k c,
      nth_error cs k = Some c ->
      pointAt out k (fround (fst (candidate draws c)))
              (fround (snd (candidate draws c)))
      /\ colorAt out k (fround (0.2 + 0.6 * draws (3 + c)%nat))
                 (fround (0.35 + 0.55 * draws (4 + c)%nat))
                 (fround (0.4 + 0.6 * draws (2 + c)%nat)).

(** *** The built field *)

Definition atLevel (L : Z) (tremas : list Trema) : list Trema :=
  filter (fun t => (level t =? L)%Z) tremas.

(** The levels of a field built level after level, below level [L], with
    [cnt l] circles at level [l]. *)
Definition layout (cnt : Z -> nat) (L : Z) : list Z :=
  flat_map (fun l => repeat l (cnt l)) (levelsBelow L).

(** The product [density * 2^(L+1) * 30] that the code computes is a
    finite number of floor [z], and the count [max(1, z)] is at most 2^53. *)
Definition countOf (density : float) (L z : Z) : Prop :=
  Math_floor (density * Math_pow2 (L + 1) * 30) = Finite z
  /\ (Z.max 1 z <= 2 ^ 53)%Z.

(** As the specification words it: as many circles as the sum over the
    levels of [max(1, floor(density * 2^(L+1) * 30))], in exact arithmetic. *)
Definition countStated (depth : Z) (density : float) (tremas : list Trema)
  : Prop :=
  Z.of_nat (length tremas)
  = fold_right Z.add 0%Z (map (specCount (F2Q density)) (levelsBelow depth)).

(** As the specification words it: the radius positive and within
    [0.8, 1.2) times the level radius [baseRadius * 0.5^level]. *)
Definition radiusStated (baseRadius : float) (t : Trema) : Prop :=
  (0 < F2Q (r t)
   /\ 0.8 * (F2Q baseRadius * Qpower 0.5 (level t)) <= F2Q (r t)
   /\ F2Q (r t) < 1.2 * (F2Q baseRadius * Qpower 0.5 (level t)))%Q.

(** As the code has it: the level within [0, depth-1], and the radius the
    double-precision value of [baseRadius * 0.5^level * (0.8 + 0.4*u)] for
    a draw [u]. *)
Definition circleInvariant (draws : nat -> float) (depth : Z)
    (baseRadius : float) (t : Trema) : Prop :=
  (0 <= level t <= depth - 1)%Z
  /\ exists i, r t = baseRadius * Math_pow2 (- level t)
                     * (0.8 + 0.4 * draws i).

(** Draws as [Math.random] gives them: in [0,1). *)
Definition unitDraws (draws : nat -> float) : Prop :=
  forall i, (0 <=? draws i) = true /\ (draws i <? 1) = true.

(** A sequence of draws given by its first values, 0.5 afterwards. *)
Definition drawsOf (l : list float) : nat -> float := fun i => nth i l 0.5.

(** *** Runs that show the rounding

    Each takes draws in [0,1), builds a field with [buildTremas] and samples
    one point from it. *)

(** One circle of centre (0,0) and radius 0.5 + 2^-30; the candidate is
    (0.5 + 2^-30 + 2^-52, 0). *)
Definition roundedDraws : nat -> float :=
  drawsOf [0.5; 0.5; 0.5; 0x1.8000000400001p-1; 0.5].

Definition roundedField : list Trema := [mkTrema 0 0 0x1.00000004p-1 0].

Definition roundedBatch : Buffers :=
  mkBuffers [0.5; 0] [0.5; 0.625; 0x1.666666p-1] [0].

(** Two circles, of levels 0 and 1, at nearly the same distance from the
    candidate (0,0): centres (2^-20, 0.75) and (2^-20 - 2^-40, 0.75). *)
Definition tieDraws : nat -> float :=
  drawsOf [0x1.00001p-1; 0.875; 0.5; 0x1.00000fffffp-1; 0.875; 0.5;
           0.5; 0.5; 0.5; 0.5; 0.5].

Definition tieField : list Trema :=
  [mkTrema 0x1p-20 0.75 0.01 0; mkTrema 0x1.ffffep-21 0.75 0.005 1].

Definition tieBatch : Buffers :=
  mkBuffers [0; 0] [0.5; 0.625; 0x1.666666p-1] [0].

(** One small circle; the three colour draws are 0. *)
Definition darkDraws : nat -> float :=
  drawsOf [0.5; 0.5; 0.5; 0.25; 0.25; 0; 0; 0].

Definition darkBatch : Buffers :=
  mkBuffers [-0.5; -0.5] [0x1.99999ap-3; 0x1.666666p-2; 0x1.99999ap-2] [0].

(** The jitter draw is the largest number below 1. *)
Definition wideDraws : nat -> float :=
  drawsOf [0.5; 0.5; 0x1.fffffffffffffp-1].

End IEEE.

(** Draws as [Math.random] gives them: in [[0,1)]. *)
Definition unitDraws (draws : nat -> Q) : Prop :=
  forall i, 0 <= draws i /\ draws i < 1.

Definition cyc : nat -> Q :=
  fun i => Z.of_nat (Nat.modulo (i * 37) 101) # 101.

(** The same sequence as [cyc], written another way. *)
Definition cyc' : nat -> Q :=
  fun i => Z.of_nat (Nat.modulo (37 * i) 101) # 101.

(** A field built from [cyc]: two circles of level 0, four of level 1. *)
Definition demoField : list Trema := fst (buildTremas cyc 2 0.04 0.6 0%nat).

(** * Proofs *)

(** ** Comparisons *)

Lemma Qltb_lt (a b : Q) : Qltb a b = true <-> a < b.
Proof.
  unfold Qltb. rewrite negb_true_iff, <- not_true_iff_false, Qle_bool_iff.
  split; [apply Qnot_le_lt | apply Qlt_not_le].
Qed.

Lemma Qltb_ge (a b : Q) : Qltb a b = false <-> b <= a.
Proof.
  unfold Qltb. rewrite negb_false_iff. apply Qle_bool_iff.
Qed.

(** ** The monad *)

Lemma bind_run {A B} (m : Rand.M A) (k : A -> Rand.M B) (i : nat) :
  Rand.bind m k i = k (fst (m i)) (snd (m i)).
Proof. unfold Rand.bind. destruct (m i); reflexivity. Qed.

Section Loops.

Context {St : Type}.

(** A property kept by every round of a [for] loop holds at its end. *)
Lemma forM_inv (body : Z -> St -> Rand.M St) (P : Z -> St -> nat -> Prop) :
  (forall i s c, P i s c ->
                 P (i + 1)%Z (fst (body i s c)) (snd (body i s c))) ->
  forall n i s c,
    P i s c ->
    P (i + Z.of_nat n)%Z (fst (forM n i body s c)) (snd (forM n i body s c)).
Proof.
  intros Hbody n. induction n as [|n IH]; intros i s c HP.
  - simpl. now rewrite Z.add_0_r.
  - cbn [forM]. rewrite bind_run.
    replace (i + Z.of_nat (S n))%Z with ((i + 1) + Z.of_nat n)%Z by lia.
    apply IH, Hbody, HP.
Qed.

(** Total correctness of a [while] loop: an invariant and a measure that
    every round decreases give a final state once the fuel covers the
    measure. *)
Lemma whileM_total (cond : St -> bool) (body : St -> Rand.M St)
      (Inv : St -> nat -> Prop) (mu : St -> nat) :
  (forall s c, Inv s c -> cond s = true ->
               Inv (fst (body s c)) (snd (body s c))
               /\ (mu (fst (body s c)) < mu s)%nat) ->
  forall fuel s c,
    Inv s c -> (mu s <= fuel)%nat ->
    exists s' c',
      whileM fuel cond body s c = (Some s', c')
      /\ Inv s' c' /\ cond s' = false.
Proof.
  intros Hbody fuel. induction fuel as [|fuel IH]; intros s c HI Hmu;
    simpl; destruct (cond s) eqn:Hc.
  - destruct (Hbody s c HI Hc) as [_ Hlt]. lia.
  - exists s, c. auto.
  - destruct (Hbody s c HI Hc) as [HI' Hlt].
    rewrite bind_run. apply IH; [exact HI' | lia].
  - exists s, c. auto.
Qed.

(** Partial correctness, for any fuel. *)
Lemma whileM_partial (cond : St -> bool) (body : St -> Rand.M St)
      (Inv : St -> nat -> Prop) :
  (forall s c, Inv s c -> cond s = true ->
               Inv (fst (body s c)) (snd (body s c))) ->
  forall fuel s c s' c',
    Inv s c ->
    whileM fuel cond body s c = (Some s', c') ->
    Inv s' c' /\ cond s' = false.
Proof.
  intros Hbody fuel. induction fuel as [|fuel IH]; intros s c s' c' HI;
    simpl; destruct (cond s) eqn:Hc; unfold Rand.ret; intros Hrun;
    try discriminate.
  - inversion Hrun; subst; auto.
  - rewrite bind_run in Hrun. eapply IH; [|exact Hrun]. now apply Hbody.
  - inversion Hrun; subst; auto.
Qed.

End Loops.

(** ** Flat arrays *)

Lemma flatPositions_length pts :
  length (flatPositions pts) = (2 * length pts)%nat.
Proof. induction pts; simpl in *; lia. Qed.

Lemma flatColors_length pts :
  length (flatColors pts) = (3 * length pts)%nat.
Proof. induction pts; simpl in *; lia. Qed.

Lemma flatPositions_nth pts k :
  nth_error (flatPositions pts) (2 * k)
  = option_map (fun p => fst (position p)) (nth_error pts k)
  /\ nth_error (flatPositions pts) (2 * k + 1)
     = option_map (fun p => snd (position p)) (nth_error pts k).
Proof.
  revert k. induction pts as [|p pts IH]; intros [|k].
  - split; reflexivity.
  - split; reflexivity.
  - split; reflexivity.
  - replace (2 * S k)%nat with (S (S (2 * k))) by lia.
    destruct (IH k) as [H0 H1]. split; simpl in *; [exact H0 | exact H1].
Qed.

Lemma flatColors_nth pts k :
  nth_error (flatColors pts) (3 * k)
  = option_map (fun p => fst (fst (color p))) (nth_error pts k)
  /\ nth_error (flatColors pts) (3 * k + 1)
     = option_map (fun p => snd (fst (color p))) (nth_error pts k)
  /\ nth_error (flatColors pts) (3 * k + 2)
     = option_map (fun p => snd (color p)) (nth_error pts k).
Proof.
  revert k. induction pts as [|p pts IH]; intros [|k].
  - repeat split; reflexivity.
  - repeat split; reflexivity.
  - repeat split; reflexivity.
  - replace (3 * S k)%nat with (S (S (S (3 * k)))) by lia.
    destruct (IH k) as (H0 & H1 & H2).
    repeat split; simpl in *; assumption.
Qed.

Lemma flatten_snoc pts p :
  flatten (pts ++ [p])
  = mkBuffers (positions (flatten pts) ++ [fst (position p); snd (position p)])
              (colors (flatten pts)
               ++ [fst (fst (color p)); snd (fst (color p)); snd (color p)])
              (levels (flatten pts) ++ [factor p]).
Proof.
  unfold flatten, flatPositions, flatColors. simpl.
  rewrite !flat_map_app, map_app. reflexivity.
Qed.

(** ** The sampler's loop *)

Section Sampler.

Variable draws : nat -> Q.
Variable tremas : list Trema.
Variable samples : Z.

(** One round: two draws for a rejected candidate, five for an accepted
    one. *)
Lemma sampleBody_run st c :
  sampleBody draws tremas st c
  = if insideAny (fst (candidate draws c)) (snd (candidate draws c)) tremas
    then (mkLoop (bufs st) (attempts st + 1), (2 + c)%nat)
    else (let p := sampleAt draws tremas c in
          mkLoop
            (mkBuffers
               (positions (bufs st) ++ [fst (position p); snd (position p)])
               (colors (bufs st)
                ++ [fst (fst (color p)); snd (fst (color p)); snd (color p)])
               (levels (bufs st) ++ [factor p]))
            (attempts st + 1), (5 + c)%nat).
Proof.
  unfold sampleBody, randRange, rand, Rand.bind, Rand.ret, candidate.
  cbn [fst snd].
  destruct (insideAny _ _ tremas); reflexivity.
Qed.

Lemma sampleCond_true st pts :
  bufs st = flatten pts ->
  sampleCond samples st = true <->
  (Z.of_nat (length pts) < samples)%Z /\ (attempts st < samples * 10)%Z.
Proof.
  intros Hb. unfold sampleCond. rewrite andb_true_iff, Qltb_lt, Z.ltb_lt.
  rewrite Hb. cbn [positions flatten]. rewrite flatPositions_length.
  assert (Hhalf : inject_Z (Z.of_nat (2 * length pts)) / 2
                  == inject_Z (Z.of_nat (length pts))).
  { rewrite Nat2Z.inj_mul, inject_Z_mult.
    change (inject_Z (Z.of_nat 2)) with 2. field. }
  rewrite Hhalf, <- Zlt_Qlt. reflexivity.
Qed.

Lemma sampleInv_init c : sampleInv draws tremas samples sampleInit c.
Proof.
  exists []. cbn. repeat split; try constructor; lia.
Qed.

Lemma sampleInv_step st c :
  sampleInv draws tremas samples st c -> sampleCond samples st = true ->
  sampleInv draws tremas samples (fst (sampleBody draws tremas st c))
            (snd (sampleBody draws tremas st c))
  /\ (Z.to_nat (samples * 10 - attempts (fst (sampleBody draws tremas st c)))
      < Z.to_nat (samples * 10 - attempts st))%nat.
Proof.
  intros (cs & Hb & Hacc & Hlen & Hatt & Hn) Hc.
  destruct (proj1 (sampleCond_true st _ Hb) Hc) as [Hlt Hbudget].
  rewrite length_map in Hlt.
  rewrite sampleBody_run.
  destruct (insideAny _ _ tremas) eqn:Hin; cbn [fst snd attempts bufs].
  - split; [|lia]. exists cs. cbn [attempts bufs]. repeat split; auto; lia.
  - split; [|lia]. exists (cs ++ [c]). cbn [attempts bufs].
    rewrite map_app. cbn [map].
    rewrite flatten_snoc, <- Hb, length_app. cbn [length].
    repeat split; try lia.
    apply Forall_app. split; [exact Hacc|]. constructor; [exact Hin|constructor].
Qed.

(** With fuel for [10 * samples] rounds the loop ends. *)
Lemma sampleLoop_total fuel c :
  (Z.to_nat (samples * 10) <= fuel)%nat ->
  exists st c',
    sampleLoop draws fuel tremas samples c = (Some st, c')
    /\ sampleInv draws tremas samples st c' /\ sampleCond samples st = false.
Proof.
  intros Hfuel. unfold sampleLoop.
  apply (whileM_total (sampleCond samples) (sampleBody draws tremas)
           (sampleInv draws tremas samples)
           (fun st => Z.to_nat (samples * 10 - attempts st))).
  - apply sampleInv_step.
  - apply sampleInv_init.
  - cbn. rewrite Z.sub_0_r. exact Hfuel.
Qed.

Lemma sampleLoop_partial fuel c st c' :
  sampleLoop draws fuel tremas samples c = (Some st, c') ->
  sampleInv draws tremas samples st c' /\ sampleCond samples st = false.
Proof.
  unfold sampleLoop.
  apply (whileM_partial (sampleCond samples) (sampleBody draws tremas)
           (sampleInv draws tremas samples)).
  - intros s k HI Hc. apply sampleInv_step; assumption.
  - apply sampleInv_init.
Qed.

(** The batch returned is the flat image of the accepted points. *)
Lemma generatePoints_total fuel c :
  (Z.to_nat (samples * 10) <= fuel)%nat ->
  exists cs c',
    generatePointsFromTremas draws fuel tremas samples c
    = (Some (flatten (map (sampleAt draws tremas) cs)), c')
    /\ Forall (accepted draws tremas) cs
    /\ (Z.of_nat (length cs) <= Z.max 0 samples)%Z.
Proof.
  intros Hfuel.
  destruct (sampleLoop_total fuel c Hfuel)
    as (st & c' & Hrun & (cs & Hb & Hacc & _ & _ & Hn) & _).
  exists cs, c'. unfold generatePointsFromTremas.
  rewrite bind_run, Hrun. cbn [fst snd]. unfold Rand.ret, Float32Array.
  rewrite Hb. repeat split; assumption.
Qed.

End Sampler.

(** ** Reading points back from a batch *)

Lemma nth_error_map_In {A B} (f : A -> B) (l : list A) k b :
  nth_error (map f l) k = Some b -> exists a, In a l /\ b = f a.
Proof.
  rewrite nth_error_map. destruct (nth_error l k) as [a|] eqn:Ha; [|discriminate].
  intros [= <-]. exists a. split; [eapply nth_error_In; eassumption | reflexivity].
Qed.

Lemma pointAt_flatten pts k x y :
  pointAt (flatten pts) k x y ->
  exists p, nth_error pts k = Some p /\ position p = (x, y).
Proof.
  unfold pointAt. cbn [positions flatten].
  destruct (flatPositions_nth pts k) as [-> ->].
  destruct (nth_error pts k) as [p|]; cbn; [|intros [? _]; discriminate].
  intros [[= <-] [= <-]]. exists p. split; [reflexivity|].
  destruct (position p); reflexivity.
Qed.

Lemma flatten_parallel pts : parallel (flatten pts) (length pts).
Proof.
  unfold parallel. cbn [positions colors levels flatten].
  rewrite flatPositions_length, flatColors_length, length_map. auto.
Qed.

(** ** The rejection scan *)

Lemma insideAny_false x y tremas :
  insideAny x y tremas = false <-> forall t, In t tremas -> outside x y t.
Proof.
  induction tremas as [|t ts IH]; cbn [insideAny].
  - split; [intros _ t []| reflexivity].
  - destruct (Qltb _ _) eqn:Hlt.
    + split; [discriminate|]. intros H.
      specialize (H t (or_introl eq_refl)). unfold outside in H.
      apply Qltb_lt in Hlt. apply Qlt_not_le in Hlt. contradiction.
    + rewrite IH. apply Qltb_ge in Hlt. split.
      * intros H u [<-|Hu]; [exact Hlt | now apply H].
      * intros H u Hu. apply H. now right.
Qed.

(** * The claims *)

(** C3.  Bounded output and attempt budget: for a count n >= 0, the loop
    ends within 10*n rounds (fuel for that many rounds is enough), its
    [attempts] counter ends at most at 10*n, and the batch holds at most n
    points. *)
Theorem C3_bounded draws tremas n c :
  (0 <= n)%Z ->
  exists st c' out N,
    sampleLoop draws (Z.to_nat (10 * n)) tremas n c = (Some st, c')
    /\ generatePointsFromTremas draws (Z.to_nat (10 * n)) tremas n c
       = (Some out, c')
    /\ (0 <= attempts st <= 10 * n)%Z
    /\ parallel out N /\ (Z.of_nat N <= n)%Z.
Proof.
  intros Hn.
  assert (Hfuel : (Z.to_nat (n * 10) <= Z.to_nat (10 * n))%nat) by lia.
  destruct (sampleLoop_total draws tremas n _ c Hfuel)
    as (st & c' & Hrun & (cs & Hb & _ & Hlen & Hatt & Hcs) & _).
  exists st, c'. eexists. exists (length (map (sampleAt draws tremas) cs)).
  split; [exact Hrun|]. split.
  - unfold generatePointsFromTremas. rewrite bind_run, Hrun.
    cbn [fst snd]. unfold Rand.ret, Float32Array. rewrite Hb. reflexivity.
  - split; [lia|]. split; [apply flatten_parallel|].
    rewrite length_map. lia.
Qed.

(** C9.  Parallel arrays: the batch has positions.length = 2*N,
    colors.length = 3*N and levels.length = N for one point count N. *)
Theorem C9_parallel draws tremas n fuel c :
  (Z.to_nat (n * 10) <= fuel)%nat ->
  exists out c' N,
    generatePointsFromTremas draws fuel tremas n c = (Some out, c')
    /\ parallel out N.
Proof.
  intros Hfuel.
  destruct (generatePoints_total draws tremas n fuel c Hfuel)
    as (cs & c' & Hrun & _).
  eexists; exists c'; eexists. split; [exact Hrun | apply flatten_parallel].
Qed.

(** ** Sampling against the empty field *)

Lemma strides_length step c m : length (strides step c m) = m.
Proof. revert c. induction m; intros; simpl; auto. Qed.

Lemma strides_nth step c m k :
  (k < m)%nat -> nth_error (strides step c m) k = Some (c + step * k)%nat.
Proof.
  revert c k. induction m as [|m IH]; intros c [|k] Hk; try lia.
  - simpl. f_equal. lia.
  - cbn [strides nth_error]. rewrite IH by lia. f_equal. lia.
Qed.

Lemma emptyLoop draws n m :
  forall fuel st c pts,
    (m <= fuel)%nat ->
    bufs st = flatten pts ->
    attempts st = Z.of_nat (length pts) ->
    (Z.of_nat (length pts) + Z.of_nat m = n)%Z ->
    whileM fuel (sampleCond n) (sampleBody draws []) st c
    = (Some (mkLoop (flatten (pts ++ map (sampleAt draws []) (strides 5 c m))) n),
       (c + 5 * m)%nat).
Proof.
  induction m as [|m IH]; intros fuel st c pts Hfuel Hb Hatt Hn.
  - assert (Hc : sampleCond n st = false).
    { apply not_true_iff_false. rewrite (sampleCond_true n st pts Hb). lia. }
    destruct fuel; cbn [whileM]; rewrite Hc; unfold Rand.ret;
      cbn [strides map]; rewrite app_nil_r, Nat.add_0_r;
      destruct st as [b a]; cbn in *; subst; repeat f_equal; lia.
  - assert (Hc : sampleCond n st = true).
    { rewrite (sampleCond_true n st pts Hb). lia. }
    destruct fuel as [|fuel]; [lia|].
    cbn [whileM]. rewrite Hc, bind_run, sampleBody_run. cbn [insideAny fst snd].
    rewrite (IH fuel _ (5 + c)%nat (pts ++ [sampleAt draws [] c])).
    + cbn [strides map]. rewrite <- app_assoc. cbn [app].
      f_equal. lia.
    + lia.
    + cbn [bufs]. rewrite flatten_snoc, <- Hb. reflexivity.
    + cbn [attempts]. rewrite length_app. cbn [length]. lia.
    + rewrite length_app. cbn [length]. lia.
Qed.


(** ** The nearest-level scan *)

(** Either no circle is closer than the starting bound and the scan
    returns what it started from, or it returns the distance and level of
    the nearest circle. *)
Lemma nearestScan_spec x y ts :
  forall minD nl,
    (nearestScan x y ts minD nl = (minD, nl)
     /\ forall t, In t ts -> minD <= dist2 x y t)
    \/ exists k t,
        nearest x y ts k t /\ dist2 x y t < minD
        /\ nearestScan x y ts minD nl = (dist2 x y t, level t).
Proof.
  induction ts as [|c rest IH]; intros minD nl; cbn [nearestScan].
  - left. split; [reflexivity | intros t []].
  - destruct (Qltb (dist2 x y c) minD) eqn:Hlt.
    + apply Qltb_lt in Hlt. right.
      destruct (IH (dist2 x y c) (level c))
        as [[Hrun Hall] | (k & t & [Hk Hmin] & Hd & Hrun)].
      * exists 0%nat, c. split; [|split; [exact Hlt | exact Hrun]].
        split; [reflexivity|]. intros [|j] u Hu; cbn in Hu.
        -- injection Hu as <-. split; [apply Qle_refl | lia].
        -- split; [|lia]. apply Hall. eapply nth_error_In; eassumption.
      * exists (S k), t. split; [|split; [|exact Hrun]].
        -- split; [exact Hk|]. intros [|j] u Hu; cbn in Hu.
           ++ injection Hu as <-. split; [apply Qlt_le_weak|intros _]; exact Hd.
           ++ destruct (Hmin j u Hu) as [Hle Hstrict].
              split; [exact Hle | intros; apply Hstrict; lia].
        -- eapply Qlt_trans; eassumption.
    + apply Qltb_ge in Hlt.
      destruct (IH minD nl) as [[Hrun Hall] | (k & t & [Hk Hmin] & Hd & Hrun)].
      * left. split; [exact Hrun|].
        intros t [<-|Ht]; [exact Hlt | now apply Hall].
      * right. exists (S k), t. split; [|split; [exact Hd | exact Hrun]].
        split; [exact Hk|]. intros [|j] u Hu; cbn in Hu.
        -- injection Hu as <-.
           assert (dist2 x y t < dist2 x y c)
             by (eapply Qlt_le_trans; eassumption).
           split; [apply Qlt_le_weak|intros _]; assumption.
        -- destruct (Hmin j u Hu) as [Hle Hstrict].
           split; [exact Hle | intros; apply Hstrict; lia].
Qed.

(** ** The divisor *)

Lemma spreadMax_spec t : forall h,
  (h <= spreadMax h t)%Z
  /\ (forall z, In z t -> (z <= spreadMax h t)%Z)
  /\ In (spreadMax h t) (h :: t).
Proof.
  unfold spreadMax. induction t as [|a t IH]; intros h; cbn [fold_left].
  - split; [lia|]. split; [intros z []| now left].
  - destruct (IH (Z.max h a)) as (H1 & H2 & H3). split; [lia|]. split.
    + intros z [<-|Hz]; [lia | now apply H2].
    + destruct H3 as [H3|H3]; [|now right; right].
      rewrite <- H3. destruct (Z.max_spec h a) as [[_ ->]|[_ ->]];
        [right; now left | now left].
Qed.

Lemma levelDivisor_pos tremas : (1 <= levelDivisor tremas)%Z.
Proof. unfold levelDivisor. lia. Qed.

Lemma levelDivisor_ge tremas t :
  In t tremas -> (level t <= levelDivisor tremas)%Z.
Proof.
  unfold levelDivisor. intros Ht. apply (in_map level) in Ht.
  destruct (map level tremas) as [|h l]; [destruct Ht|].
  destruct (spreadMax_spec l h) as (H1 & H2 & _).
  destruct Ht as [<-|Ht]; [lia | specialize (H2 _ Ht); lia].
Qed.

(** ** Level factors of a batch *)

Lemma levelFactor_range x y tremas :
  (forall t, In t tremas -> (0 <= level t)%Z) ->
  0 <= levelFactor x y tremas /\ levelFactor x y tremas <= 1.
Proof.
  intros Hpos. unfold levelFactor, nearLevel.
  pose proof (levelDivisor_pos tremas) as Hd.
  assert (Hnl : (0 <= snd (nearestScan x y tremas 1e9 0%Z)
                 <= levelDivisor tremas)%Z).
  { destruct (nearestScan_spec x y tremas 1e9 0%Z)
      as [[-> _] | (k & u & [Hk _] & _ & ->)]; cbn [snd]; [lia|].
    apply nth_error_In in Hk. split; [now apply Hpos|].
    now apply levelDivisor_ge. }
  assert (Hd0 : 0 < inject_Z (levelDivisor tremas)).
  { change 0 with (inject_Z 0). rewrite <- Zlt_Qlt. lia. }
  revert Hnl. generalize (snd (nearestScan x y tremas 1e9 0%Z)) as nl.
  intros nl Hnl. split.
  - apply Qle_shift_div_l; [exact Hd0|]. rewrite Qmult_0_l.
    change 0 with (inject_Z 0). rewrite <- Zle_Qle. lia.
  - apply Qle_shift_div_r; [exact Hd0|]. rewrite Qmult_1_l.
    rewrite <- Zle_Qle. lia.
Qed.

(** C7.  When the levels of the field's circles are non-negative, every
    levelFactor of the batch is in [0, 1]. *)
Theorem C7_factor_range draws tremas n fuel c :
  (forall t, In t tremas -> (0 <= level t)%Z) ->
  (Z.to_nat (n * 10) <= fuel)%nat ->
  exists out c',
    generatePointsFromTremas draws fuel tremas n c = (Some out, c')
    /\ Forall (fun f => 0 <= f /\ f <= 1) (levels out).
Proof.
  intros Hlev Hfuel.
  destruct (generatePoints_total draws tremas n fuel c Hfuel)
    as (cs & c' & Hrun & _).
  eexists; exists c'. split; [exact Hrun|].
  cbn [levels flatten]. rewrite map_map. apply Forall_map, Forall_forall.
  intros i _. cbn [factor sampleAt]. now apply levelFactor_range.
Qed.

(** ** The builder's loops *)

Section Builder.

Variable draws : nat -> Q.
Variable density baseRadius : Q.

Lemma pushTrema_run L LR ts c :
  pushTrema draws L LR ts c = (ts ++ [tremaAt draws L LR c], (3 + c)%nat).
Proof. reflexivity. Qed.

(** The inner loop appends one circle per round, three draws each. *)
Lemma pushLoop_run L LR n :
  forall i ts c,
    forM n i (fun _ t => pushTrema draws L LR t) ts c
    = (ts ++ map (tremaAt draws L LR) (strides 3 c n), (3 * n + c)%nat).
Proof.
  induction n as [|n IH]; intros i ts c; cbn [forM strides map].
  - unfold Rand.ret. rewrite app_nil_r. reflexivity.
  - rewrite bind_run, pushTrema_run. cbn [fst snd]. rewrite IH.
    rewrite <- app_assoc. cbn [app]. f_equal. lia.
Qed.

Lemma buildLevel_run L ts c :
  buildLevel draws density baseRadius L ts c
  = (ts ++ map (tremaAt draws L (levelRadius baseRadius L))
               (strides 3 c (Z.to_nat (levelCount density L))),
     (3 * Z.to_nat (levelCount density L) + c)%nat).
Proof. unfold buildLevel, forUpto. apply pushLoop_run. Qed.

Lemma layout_succ L :
  (0 <= L)%Z ->
  layout density (L + 1) = layout density L ++ repeat L (Z.to_nat (levelCount density L)).
Proof.
  intros HL. unfold layout, levelsBelow.
  replace (Z.to_nat (L + 1)) with (S (Z.to_nat L)) by lia.
  rewrite seq_S, map_app, flat_map_app. cbn [map flat_map Nat.add].
  rewrite app_nil_r, Z2Nat.id by exact HL. reflexivity.
Qed.

(** The field is laid out level after level, and every circle of it was
    pushed by [pushTrema] at its own level. *)
Lemma buildTremas_layout depth c :
  let tremas := fst (buildTremas draws depth density baseRadius c) in
  map level tremas = layout density (Z.max 0 depth)
  /\ Forall (fun t => (0 <= level t < depth)%Z
                      /\ exists i, t = tremaAt draws (level t)
                                         (levelRadius baseRadius (level t)) i)
            tremas.
Proof.
  unfold buildTremas, forUpto.
  pose (P := fun (L : Z) (ts : list Trema) (_ : nat) =>
               (0 <= L)%Z /\ map level ts = layout density L
               /\ Forall (fun t => (0 <= level t < L)%Z
                                   /\ exists i, t = tremaAt draws (level t)
                                         (levelRadius baseRadius (level t)) i)
                         ts).
  assert (Hend : P (0 + Z.of_nat (Z.to_nat depth))%Z
                   (fst (forM (Z.to_nat depth) 0%Z
                              (buildLevel draws density baseRadius) [] c))
                   (snd (forM (Z.to_nat depth) 0%Z
                              (buildLevel draws density baseRadius) [] c))).
  { apply (forM_inv (buildLevel draws density baseRadius) P).
    - intros L ts k (HL & Hlay & Hall). rewrite buildLevel_run.
      cbn [fst snd]. split; [lia|]. split.
      + rewrite map_app, Hlay, layout_succ by exact HL. f_equal.
        rewrite map_map. cbn [level tremaAt].
        generalize (Z.to_nat (levelCount density L)) as m. clear.
        intros m. revert k.
        induction m as [|m IHm]; intros k; cbn; [reflexivity | now rewrite IHm].
      + apply Forall_app. split.
        * eapply Forall_impl; [|exact Hall]. cbn beta.
          intros t [Ht Hi]. split; [lia | exact Hi].
        * apply Forall_map, Forall_forall. intros i _.
          cbn [level tremaAt]. split; [lia | now exists i].
    - split; [lia|]. split; [reflexivity | constructor]. }
  destruct Hend as (_ & Hlay & Hall). cbn zeta. split.
  - rewrite Hlay. f_equal. lia.
  - eapply Forall_impl; [|exact Hall]. cbn beta.
    intros t [Ht Hi]. split; [lia | exact Hi].
Qed.

End Builder.

Lemma filter_repeat L l k :
  length (filter (fun z => (z =? L)%Z) (repeat l k))
  = if (l =? L)%Z then k else 0%nat.
Proof.
  induction k as [|k IH]; cbn [repeat filter].
  - now destruct (l =? L)%Z.
  - destruct (l =? L)%Z eqn:E; cbn [length]; now rewrite IH.
Qed.

Lemma filter_blocks (cnt : Z -> nat) L n :
  forall a,
    length (filter (fun z => (z =? L)%Z)
                   (flat_map (fun l => repeat l (cnt l))
                             (map Z.of_nat (seq a n))))
    = if ((Z.of_nat a <=? L) && (L <? Z.of_nat (a + n)))%Z then cnt L
      else 0%nat.
Proof.
  induction n as [|n IH]; intros a; cbn [seq map flat_map filter length].
  - destruct (Z.leb_spec (Z.of_nat a) L), (Z.ltb_spec L (Z.of_nat (a + 0)));
      cbn [andb]; try reflexivity; lia.
  - rewrite filter_app, length_app, filter_repeat, IH.
    destruct (Z.eqb_spec (Z.of_nat a) L) as [Heq|Hne]; [rewrite Heq|];
      repeat match goal with
             | |- context [(?u <=? ?v)%Z] => destruct (Z.leb_spec u v)
             | |- context [(?u <? ?v)%Z] => destruct (Z.ltb_spec u v)
             end; cbn [andb]; lia.
Qed.

(** ** The sampling square *)

Lemma randRange_square (u : Q) :
  0 <= u -> u < 1 -> -1 <= -1 + (1 - -1) * u /\ -1 + (1 - -1) * u < 1.
Proof. intros. split; lra. Qed.

(** ** Runs on equal draws *)

Lemma forM_ext {St} (b1 b2 : Z -> St -> Rand.M St) :
  (forall i s c, b1 i s c = b2 i s c) ->
  forall n i s c, forM n i b1 s c = forM n i b2 s c.
Proof.
  intros Hb n. induction n as [|n IH]; intros i s c; cbn [forM];
    [reflexivity|].
  rewrite !bind_run, Hb. apply IH.
Qed.

Lemma whileM_ext {St} (cond : St -> bool) (b1 b2 : St -> Rand.M St) :
  (forall s c, b1 s c = b2 s c) ->
  forall fuel s c, whileM fuel cond b1 s c = whileM fuel cond b2 s c.
Proof.
  intros Hb fuel. induction fuel as [|fuel IH]; intros s c; cbn [whileM];
    destruct (cond s); try reflexivity.
  rewrite !bind_run, Hb. apply IH.
Qed.

Section SameDraws.

Variables d1 d2 : nat -> Q.
Hypothesis same : forall i, d1 i = d2 i.

Lemma pushTrema_same L LR ts c :
  pushTrema d1 L LR ts c = pushTrema d2 L LR ts c.
Proof.
  rewrite !pushTrema_run. unfold tremaAt. now rewrite !same.
Qed.

Lemma buildLevel_same density baseRadius L ts c :
  buildLevel d1 density baseRadius L ts c
  = buildLevel d2 density baseRadius L ts c.
Proof.
  unfold buildLevel, forUpto. apply forM_ext.
  intros. apply pushTrema_same.
Qed.

Lemma buildTremas_same depth density baseRadius c :
  buildTremas d1 depth density baseRadius c
  = buildTremas d2 depth density baseRadius c.
Proof.
  unfold buildTremas, forUpto. apply forM_ext.
  intros. apply buildLevel_same.
Qed.

Lemma sampleBody_same tremas st c :
  sampleBody d1 tremas st c = sampleBody d2 tremas st c.
Proof.
  rewrite !sampleBody_run. unfold sampleAt, candidate. now rewrite !same.
Qed.

Lemma generatePoints_same fuel tremas n c :
  generatePointsFromTremas d1 fuel tremas n c
  = generatePointsFromTremas d2 fuel tremas n c.
Proof.
  unfold generatePointsFromTremas, sampleLoop. rewrite !bind_run.
  rewrite (whileM_ext _ _ _ (sampleBody_same tremas)). reflexivity.
Qed.

Lemma regenerate_same fuel depth density baseRadius samples c :
  regenerate d1 fuel depth density baseRadius samples c
  = regenerate d2 fuel depth density baseRadius samples c.
Proof.
  unfold regenerate. rewrite !bind_run, buildTremas_same.
  rewrite generatePoints_same. reflexivity.
Qed.

End SameDraws.

(** C8.  Determinism under fixed randomness: two runs on the same
    configuration and the same sequence of draws give the same field, the
    same batch and the same count of draws read, for [buildTremas], for
    [generatePointsFromTremas] and for the two in sequence. *)
Theorem C8_determinism d1 d2 fuel depth density baseRadius tremas n samples c :
  (forall i, d1 i = d2 i) ->
  buildTremas d1 depth density baseRadius c
  = buildTremas d2 depth density baseRadius c
  /\ generatePointsFromTremas d1 fuel tremas n c
     = generatePointsFromTremas d2 fuel tremas n c
  /\ regenerate d1 fuel depth density baseRadius samples c
     = regenerate d2 fuel depth density baseRadius samples c.
Proof.
  intros Hsame. split; [|split].
  - now apply buildTremas_same.
  - now apply generatePoints_same.
  - now apply regenerate_same.
Qed.

(** * Concrete runs *)

Lemma cyc_unit : unitDraws cyc.
Proof.
  intros i. unfold cyc, Qle, Qlt. cbn [Qnum Qden].
  pose proof (Nat.mod_upper_bound (i * 37) 101). lia.
Qed.

Lemma cyc_same : forall i, cyc i = cyc' i.
Proof. intros i. unfold cyc, cyc'. now rewrite Nat.mul_comm. Qed.

Lemma demoField_levels : forall t, In t demoField -> (0 <= level t)%Z.
Proof.
  intros t Ht. vm_compute in Ht.
  repeat (destruct Ht as [<-|Ht]; [cbn; lia|]). destruct Ht.
Qed.

(** The configuration depth 1, density 0.4, base radius 0.18 gives
    max(1, floor(0.4*2*30)) = 24 circles, all of level 0. *)
Example scenario_count :
  map level (fst (buildTremas cyc 1 0.4 0.18 0%nat)) = repeat 0%Z 24.
Proof. vm_compute. reflexivity. Qed.

(** The sampler against [demoField], three points asked for: five
    candidates are drawn, two of them rejected. *)
Example demo_run :
  exists st, sampleLoop cyc 30 demoField 3 18%nat = (Some st, 37%nat)
             /\ attempts st = 5%Z /\ length (levels (bufs st)) = 3%nat.
Proof. eexists. split; [vm_compute; reflexivity | split; reflexivity]. Qed.

Lemma C3_bounded_witness :
  (0 <= 3)%Z
  /\ exists st c' out N,
      sampleLoop cyc (Z.to_nat (10 * 3)) demoField 3 18%nat = (Some st, c')
      /\ generatePointsFromTremas cyc (Z.to_nat (10 * 3)) demoField 3 18%nat
         = (Some out, c')
      /\ (0 <= attempts st <= 10 * 3)%Z
      /\ parallel out N /\ (Z.of_nat N <= 3)%Z.
Proof.
  split; [lia | apply (C3_bounded cyc demoField 3 18%nat); lia].
Defined.


Lemma C7_factor_range_witness :
  ((forall t, In t demoField -> (0 <= level t)%Z)
   /\ (Z.to_nat (3 * 10) <= 30)%nat)
  /\ exists out c',
      generatePointsFromTremas cyc 30 demoField 3 18%nat = (Some out, c')
      /\ Forall (fun f => 0 <= f /\ f <= 1) (levels out).
Proof.
  split; [split; [exact demoField_levels | lia]|].
  apply (C7_factor_range cyc demoField 3 30 18%nat);
    [exact demoField_levels | lia].
Defined.

Lemma C8_determinism_witness :
  (forall i, cyc i = cyc' i)
  /\ buildTremas cyc 2 0.04 0.6 0%nat = buildTremas cyc' 2 0.04 0.6 0%nat
  /\ generatePointsFromTremas cyc 30 demoField 3 0%nat
     = generatePointsFromTremas cyc' 30 demoField 3 0%nat
  /\ regenerate cyc 30 2 0.04 0.6 3 0%nat
     = regenerate cyc' 30 2 0.04 0.6 3 0%nat.
Proof.
  split; [exact cyc_same|].
  apply (C8_determinism cyc cyc' 30 2 0.04 0.6 demoField 3 3 0%nat).
  exact cyc_same.
Defined.

Lemma C9_parallel_witness :
  (Z.to_nat (3 * 10) <= 30)%nat
  /\ exists out c' N,
      generatePointsFromTremas cyc 30 demoField 3 18%nat = (Some out, c')
      /\ parallel out N.
Proof.
  split; [lia | apply (C9_parallel cyc demoField 3 30 18%nat); lia].
Defined.

(** * Further properties *)

(** ** The built field *)

(** X2.  [buildTremas] reads exactly three draws per circle. *)
Theorem buildTremas_draws draws depth density baseRadius c :
  snd (buildTremas draws depth density baseRadius c)
  = (c + 3 * length (fst (buildTremas draws depth density baseRadius c)))%nat.
Proof.
  unfold buildTremas, forUpto.
  pose (P := fun (_ : Z) (ts : list Trema) (k : nat) =>
               k = (c + 3 * length ts)%nat).
  apply (forM_inv (buildLevel draws density baseRadius) P).
  - intros L ts k Hk. unfold P in *. rewrite buildLevel_run. cbn [fst snd].
    rewrite length_app, length_map, strides_length. lia.
  - unfold P. cbn. lia.
Qed.

Lemma blocks_sorted (cnt : Z -> nat) n :
  forall a,
    StronglySorted Z.le
      (flat_map (fun l => repeat l (cnt l)) (map Z.of_nat (seq a n)))
    /\ Forall (fun z => (Z.of_nat a <= z)%Z)
              (flat_map (fun l => repeat l (cnt l)) (map Z.of_nat (seq a n))).
Proof.
  induction n as [|n IH]; intros a; cbn [seq map flat_map].
  - split; constructor.
  - destruct (IH (S a)) as [Hs Hall].
    generalize (cnt (Z.of_nat a)) as k. intros k.
    induction k as [|k [IHs IHall]]; cbn [repeat app].
    + split; [exact Hs|]. eapply Forall_impl; [|exact Hall].
      cbn beta. intros; lia.
    + split.
      * constructor; [exact IHs | exact IHall].
      * constructor; [lia | exact IHall].
Qed.

(** X4.  The field lists its circles by level: levels never decrease along
    the field, so on a tie of distances the lower level is met first. *)
Theorem buildTremas_sorted draws depth density baseRadius c :
  StronglySorted Z.le
    (map level (fst (buildTremas draws depth density baseRadius c))).
Proof.
  destruct (buildTremas_layout draws density baseRadius depth c) as [Hlay _].
  cbn zeta in Hlay. rewrite Hlay. unfold layout, levelsBelow.
  apply blocks_sorted.
Qed.

(** X5.  For draws in [0,1), every centre built is in the half-open square
    [-1,1) x [-1,1). *)
Theorem buildTremas_centres draws depth density baseRadius c :
  unitDraws draws ->
  Forall (fun t => (-1 <= cx t /\ cx t < 1) /\ (-1 <= cy t /\ cy t < 1))
         (fst (buildTremas draws depth density baseRadius c)).
Proof.
  intros Hu.
  destruct (buildTremas_layout draws density baseRadius depth c) as [_ Hall].
  cbn zeta in Hall. eapply Forall_impl; [|exact Hall]. cbn beta.
  intros t [_ [i ->]]. cbn [cx cy tremaAt].
  destruct (Hu i) as [H0 H1]. destruct (Hu (S i)) as [H2 H3].
  split; apply randRange_square; assumption.
Qed.

Lemma buildTremas_centres_witness :
  unitDraws cyc
  /\ Forall (fun t => (-1 <= cx t /\ cx t < 1) /\ (-1 <= cy t /\ cy t < 1))
            (fst (buildTremas cyc 2 0.04 0.6 0%nat)).
Proof.
  split; [exact cyc_unit|].
  apply (buildTremas_centres cyc 2 0.04 0.6 0%nat). exact cyc_unit.
Defined.

(** ** The acceptance test *)

(** The scan is true exactly when some circle strictly holds the point. *)
Lemma insideAny_true x y tremas :
  insideAny x y tremas = true <-> exists t, In t tremas /\ inside x y t.
Proof.
  rewrite <- not_false_iff_true, insideAny_false. unfold inside, outside, dist2.
  split.
  - intros H. induction tremas as [|t ts IH].
    + exfalso. apply H. intros t [].
    + destruct (Qlt_le_dec ((x - cx t) * (x - cx t) + (y - cy t) * (y - cy t))
                           (r t * r t)) as [Hlt|Hle].
      * exists t. split; [now left | exact Hlt].
      * destruct IH as (u & Hu & Hin).
        -- intros Hall. apply H. intros u [<-|Hu]; [exact Hle | now apply Hall].
        -- exists u. split; [now right | exact Hin].
  - intros (t & Ht & Hin) Hall. specialize (Hall t Ht).
    apply Qlt_not_le in Hin. contradiction.
Qed.

(** X7.  Acceptance does not depend on the order of the circles. *)
Theorem insideAny_permutation x y ts us :
  Permutation ts us -> insideAny x y ts = insideAny x y us.
Proof.
  intros Hp.
  destruct (insideAny x y ts) eqn:Hts, (insideAny x y us) eqn:Hus;
    try reflexivity; exfalso.
  - apply insideAny_true in Hts. destruct Hts as (t & Ht & Hin).
    rewrite <- not_true_iff_false in Hus. apply Hus, insideAny_true.
    exists t. split; [eapply Permutation_in; eassumption | exact Hin].
  - apply insideAny_true in Hus. destruct Hus as (t & Ht & Hin).
    rewrite <- not_true_iff_false in Hts. apply Hts, insideAny_true.
    exists t. split; [|exact Hin].
    eapply Permutation_in; [apply Permutation_sym|]; eassumption.
Qed.

Lemma insideAny_permutation_witness :
  Permutation demoField (rev demoField)
  /\ insideAny 0 0 demoField = insideAny 0 0 (rev demoField).
Proof.
  split; [apply Permutation_rev|].
  apply (insideAny_permutation 0 0 demoField (rev demoField)).
  apply Permutation_rev.
Defined.

(** ** The level factor *)

Lemma nearestScan_withRadius f x y ts :
  forall minD nl,
    nearestScan x y (map (withRadius f) ts) minD nl = nearestScan x y ts minD nl.
Proof.
  induction ts as [|t ts IH]; intros minD nl; cbn [map nearestScan];
    [reflexivity|].
  change (dist2 x y (withRadius f t)) with (dist2 x y t).
  change (level (withRadius f t)) with (level t).
  destruct (Qltb (dist2 x y t) minD); apply IH.
Qed.

(** X8.  The level factor looks at centres and levels only: replacing the
    radii of the circles leaves it unchanged. *)
Theorem levelFactor_withRadius f x y tremas :
  levelFactor x y (map (withRadius f) tremas) = levelFactor x y tremas.
Proof.
  unfold levelFactor, nearLevel, levelDivisor.
  rewrite nearestScan_withRadius, map_map.
  assert (Hl : map (fun t => level (withRadius f t)) tremas = map level tremas)
    by (apply map_ext; reflexivity).
  rewrite Hl. reflexivity.
Qed.

Lemma levelFactor_flat x y tremas :
  (forall t, In t tremas -> level t = 0%Z) -> levelFactor x y tremas == 0.
Proof.
  intros Hz. unfold levelFactor, nearLevel.
  destruct (nearestScan_spec x y tremas 1e9 0%Z)
    as [[-> _] | (k & u & [Hk _] & _ & ->)]; cbn [snd].
  - unfold Qdiv. apply Qmult_0_l.
  - apply nth_error_In in Hk. rewrite (Hz u Hk). unfold Qdiv. apply Qmult_0_l.
Qed.

(** ** The trace of the sampler *)

Lemma StronglySorted_snoc (l : list nat) (c : nat) :
  StronglySorted lt l -> Forall (fun k => (k < c)%nat) l ->
  StronglySorted lt (l ++ [c]).
Proof.
  induction 1 as [|a l Hs IH Ha]; intros Hall; cbn [app].
  - constructor; constructor.
  - inversion Hall as [|? ? Hac Hl]; subst. constructor; [now apply IH|].
    apply Forall_app. split; [exact Ha | constructor; [exact Hac | constructor]].
Qed.

Section Trace.

Variable draws : nat -> Q.
Variable tremas : list Trema.
Variable samples : Z.
Variable c0 : nat.

Lemma sampleTrace_init : sampleTrace draws tremas c0 sampleInit c0.
Proof.
  exists [], []. cbn. repeat split; try constructor; lia.
Qed.

Lemma sampleTrace_step st c :
  sampleTrace draws tremas c0 st c ->
  sampleTrace draws tremas c0 (fst (sampleBody draws tremas st c))
              (snd (sampleBody draws tremas st c)).
Proof.
  intros (cs & rs & Hb & Hacc & Hrej & Hatt & Hc & Hs & Hrange).
  rewrite sampleBody_run.
  destruct (insideAny _ _ tremas) eqn:Hin; cbn [fst snd].
  - exists cs, (rs ++ [c]). cbn [attempts bufs]. rewrite length_app.
    cbn [length]. repeat split; auto; try lia.
    + apply Forall_app. split; [exact Hrej | constructor; [exact Hin | constructor]].
    + eapply Forall_impl; [|exact Hrange]. cbn beta. intros; lia.
  - exists (cs ++ [c]), rs. cbn [attempts bufs]. rewrite map_app. cbn [map].
    rewrite flatten_snoc, <- Hb, length_app. cbn [length].
    repeat split; auto; try lia.
    + apply Forall_app. split; [exact Hacc | constructor; [exact Hin | constructor]].
    + apply StronglySorted_snoc; [exact Hs|].
      eapply Forall_impl; [|exact Hrange]. cbn beta. intros; lia.
    + apply Forall_app. split.
      * eapply Forall_impl; [|exact Hrange]. cbn beta. intros; lia.
      * constructor; [lia | constructor].
Qed.

Lemma sampleLoop_trace fuel st c' :
  sampleLoop draws fuel tremas samples c0 = (Some st, c') ->
  sampleTrace draws tremas c0 st c'.
Proof.
  unfold sampleLoop. intros Hrun.
  apply (whileM_partial (sampleCond samples) (sampleBody draws tremas)
           (sampleTrace draws tremas c0) (fun s k HI _ => sampleTrace_step s k HI)
           fuel sampleInit c0 st c' sampleTrace_init Hrun).
Qed.

End Trace.

Lemma generatePoints_of_loop draws fuel tremas n c st c' :
  sampleLoop draws fuel tremas n c = (Some st, c') ->
  generatePointsFromTremas draws fuel tremas n c = (Some (bufs st), c').
Proof.
  intros Hrun. unfold generatePointsFromTremas. rewrite bind_run, Hrun.
  cbn [fst snd]. unfold Rand.ret, Float32Array. destruct st as [[p k l] a].
  reflexivity.
Qed.

(** X9.  Draw accounting: every round reads two draws and every accepted
    point three more, so a run from cursor [c] ends at cursor
    [c + 2*attempts + 3*N]; and no more points than rounds. *)
Theorem sampler_draws draws tremas n fuel c :
  (Z.to_nat (n * 10) <= fuel)%nat ->
  exists st c' N,
    sampleLoop draws fuel tremas n c = (Some st, c')
    /\ parallel (bufs st) N
    /\ (Z.of_nat N <= attempts st)%Z
    /\ (Z.of_nat c' = Z.of_nat c + 2 * attempts st + 3 * Z.of_nat N)%Z.
Proof.
  intros Hfuel.
  destruct (sampleLoop_total draws tremas n fuel c Hfuel) as (st & c' & Hrun & _).
  destruct (sampleLoop_trace _ _ _ _ _ _ _ Hrun)
    as (cs & rs & Hb & _ & _ & Hatt & Hc & _).
  exists st, c', (length (map (sampleAt draws tremas) cs)).
  split; [exact Hrun|]. rewrite Hb. split; [apply flatten_parallel|].
  rewrite length_map. lia.
Qed.

(** ** How the loop ends *)

(** X12.  For a count n >= 0 the loop ends either with the batch full or
    with the attempt budget used up: a batch of fewer than n points has
    cost exactly 10*n attempts. *)
Theorem sampler_exit draws tremas n fuel c :
  (0 <= n)%Z -> (Z.to_nat (n * 10) <= fuel)%nat ->
  exists st c' N,
    sampleLoop draws fuel tremas n c = (Some st, c')
    /\ parallel (bufs st) N
    /\ (Z.of_nat N = n \/ attempts st = (n * 10)%Z).
Proof.
  intros Hn Hfuel.
  destruct (sampleLoop_total draws tremas n fuel c Hfuel)
    as (st & c' & Hrun & (cs & Hb & _ & _ & Hatt & Hcs) & Hc).
  exists st, c', (length (map (sampleAt draws tremas) cs)).
  split; [exact Hrun|]. split; [rewrite Hb; apply flatten_parallel|].
  rewrite <- not_true_iff_false, (sampleCond_true n st _ Hb) in Hc.
  rewrite length_map in *. lia.
Qed.

Lemma sampler_exit_witness :
  ((0 <= 3)%Z /\ (Z.to_nat (3 * 10) <= 30)%nat)
  /\ exists st c' N,
      sampleLoop cyc 30 demoField 3 18%nat = (Some st, c')
      /\ parallel (bufs st) N
      /\ (Z.of_nat N = 3%Z \/ attempts st = (3 * 10)%Z).
Proof.
  split; [split; lia | apply (sampler_exit cyc demoField 3 30 18%nat); lia].
Defined.

(** X13.  A count n <= 0 gives the empty batch at once: no round, no draw
    read, whatever the field. *)
Theorem sampler_nothing draws tremas n fuel c :
  (n <= 0)%Z ->
  sampleLoop draws fuel tremas n c = (Some sampleInit, c)
  /\ generatePointsFromTremas draws fuel tremas n c
     = (Some (mkBuffers [] [] []), c).
Proof.
  intros Hn.
  assert (Hc : sampleCond n sampleInit = false).
  { apply not_true_iff_false.
    rewrite (sampleCond_true n sampleInit [] eq_refl). cbn. lia. }
  assert (Hrun : sampleLoop draws fuel tremas n c = (Some sampleInit, c)).
  { unfold sampleLoop. destruct fuel; cbn [whileM]; rewrite Hc; reflexivity. }
  split; [exact Hrun|].
  now rewrite (generatePoints_of_loop _ _ _ _ _ _ _ Hrun).
Qed.

Lemma sampler_nothing_witness :
  (-2 <= 0)%Z
  /\ sampleLoop cyc 0 demoField (-2) 18%nat = (Some sampleInit, 18%nat)
  /\ generatePointsFromTremas cyc 0 demoField (-2) 18%nat
     = (Some (mkBuffers [] [] []), 18%nat).
Proof.
  split; [lia | apply (sampler_nothing cyc demoField (-2) 0 18%nat); lia].
Defined.

(** ** A field that covers the square *)

Lemma covered_rejects draws tremas t :
  unitDraws draws -> In t tremas -> inSquare t -> 8 < r t * r t ->
  forall k, insideAny (fst (candidate draws k)) (snd (candidate draws k)) tremas
            = true.
Proof.
  intros Hu Ht [Hcx Hcy] Hr k. apply insideAny_true. exists t.
  split; [exact Ht|]. unfold inside, dist2, candidate. cbn [fst snd].
  destruct (Hu k) as [H0 H1]. destruct (Hu (S k)) as [H2 H3].
  destruct (randRange_square _ H0 H1) as [Hx0 Hx1].
  destruct (randRange_square _ H2 H3) as [Hy0 Hy1].
  set (x := -1 + (1 - -1) * draws k) in *.
  set (y := -1 + (1 - -1) * draws (S k)) in *.
  assert ((x - cx t) * (x - cx t) <= 4) by nra.
  assert ((y - cy t) * (y - cy t) <= 4) by nra.
  lra.
Qed.

Lemma coveredLoop draws tremas n m :
  (forall k, insideAny (fst (candidate draws k)) (snd (candidate draws k)) tremas
             = true) ->
  forall fuel st c,
    (m <= fuel)%nat ->
    bufs st = mkBuffers [] [] [] ->
    (0 <= attempts st)%Z ->
    (attempts st + Z.of_nat m = n * 10)%Z ->
    whileM fuel (sampleCond n) (sampleBody draws tremas) st c
    = (Some (mkLoop (mkBuffers [] [] []) (n * 10)), (c + 2 * m)%nat).
Proof.
  intros Hrej. induction m as [|m IH]; intros fuel st c Hfuel Hb Ha Hm.
  - assert (Hc : sampleCond n st = false).
    { apply not_true_iff_false.
      rewrite (sampleCond_true n st [] Hb). lia. }
    destruct fuel; cbn [whileM]; rewrite Hc; unfold Rand.ret;
      destruct st as [b a]; cbn in *; subst; repeat f_equal; lia.
  - assert (Hc : sampleCond n st = true).
    { rewrite (sampleCond_true n st [] Hb). cbn [length]. lia. }
    destruct fuel as [|fuel]; [lia|].
    cbn [whileM]. rewrite Hc, bind_run, sampleBody_run, Hrej. cbn [fst snd].
    rewrite (IH fuel _ (2 + c)%nat); cbn [bufs attempts];
      [f_equal; lia | lia | exact Hb | lia | lia].
Qed.

(** X14.  When one circle holds the whole sampling square (centre in
    the square, squared radius above 8), every candidate is rejected: the
    batch is empty after exactly 10*n attempts and 20*n draws. *)
Theorem sampler_covered draws tremas t n fuel c :
  unitDraws draws -> In t tremas -> inSquare t -> 8 < r t * r t ->
  (0 <= n)%Z -> (Z.to_nat (n * 10) <= fuel)%nat ->
  sampleLoop draws fuel tremas n c
  = (Some (mkLoop (mkBuffers [] [] []) (n * 10)), (c + 20 * Z.to_nat n)%nat)
  /\ generatePointsFromTremas draws fuel tremas n c
     = (Some (mkBuffers [] [] []), (c + 20 * Z.to_nat n)%nat).
Proof.
  intros Hu Ht Hsq Hr Hn Hfuel.
  assert (Hrun : sampleLoop draws fuel tremas n c
                 = (Some (mkLoop (mkBuffers [] [] []) (n * 10)),
                    (c + 20 * Z.to_nat n)%nat)).
  { unfold sampleLoop.
    rewrite (coveredLoop draws tremas n (Z.to_nat (n * 10))
               (covered_rejects draws tremas t Hu Ht Hsq Hr) fuel sampleInit c);
      [f_equal; lia | exact Hfuel | reflexivity | cbn; lia | cbn; lia]. }
  split; [exact Hrun|].
  now rewrite (generatePoints_of_loop _ _ _ _ _ _ _ Hrun).
Qed.

Lemma sampler_covered_witness :
  (unitDraws cyc /\ In (mkTrema 0 0 3 0) [mkTrema 0 0 3 0]
   /\ inSquare (mkTrema 0 0 3 0) /\ 8 < r (mkTrema 0 0 3 0) * r (mkTrema 0 0 3 0)
   /\ (0 <= 2)%Z /\ (Z.to_nat (2 * 10) <= 20)%nat)
  /\ sampleLoop cyc 20 [mkTrema 0 0 3 0] 2 0%nat
     = (Some (mkLoop (mkBuffers [] [] []) (2 * 10)), (0 + 20 * Z.to_nat 2)%nat)
  /\ generatePointsFromTremas cyc 20 [mkTrema 0 0 3 0] 2 0%nat
     = (Some (mkBuffers [] [] []), (0 + 20 * Z.to_nat 2)%nat).
Proof.
  assert (Hsq : inSquare (mkTrema 0 0 3 0)).
  { unfold inSquare. cbn [cx cy]. repeat split; discriminate. }
  split.
  - split; [exact cyc_unit|]. split; [now left|]. split; [exact Hsq|].
    split; [reflexivity|]. split; lia.
  - apply (sampler_covered cyc [mkTrema 0 0 3 0] (mkTrema 0 0 3 0) 2 20 0%nat);
      [exact cyc_unit | now left | exact Hsq | reflexivity | lia | lia].
Defined.

Lemma sampler_draws_witness :
  (Z.to_nat (3 * 10) <= 30)%nat
  /\ exists st c' N,
      sampleLoop cyc 30 demoField 3 18%nat = (Some st, c')
      /\ parallel (bufs st) N
      /\ (Z.of_nat N <= attempts st)%Z
      /\ (Z.of_nat c' = Z.of_nat 18 + 2 * attempts st + 3 * Z.of_nat N)%Z.
Proof.
  split; [lia | apply (sampler_draws cyc demoField 3 30 18%nat); lia].
Defined.

(** ** Positions *)

(** X15.  For draws in [0,1), every coordinate of the batch is in the
    closed range [-1,1]. *)
Theorem sampler_positions draws tremas n fuel c :
  unitDraws draws -> (Z.to_nat (n * 10) <= fuel)%nat ->
  exists out c',
    generatePointsFromTremas draws fuel tremas n c = (Some out, c')
    /\ Forall (fun v => -1 <= v /\ v <= 1) (positions out).
Proof.
  intros Hu Hfuel.
  destruct (generatePoints_total draws tremas n fuel c Hfuel)
    as (cs & c' & Hrun & _).
  eexists; exists c'. split; [exact Hrun|].
  cbn [positions flatten]. unfold flatPositions.
  apply Forall_flat_map, Forall_map, Forall_forall. intros k _.
  cbn [position sampleAt candidate fst snd].
  destruct (Hu k) as [H0 H1]. destruct (Hu (S k)) as [H2 H3].
  destruct (randRange_square _ H0 H1). destruct (randRange_square _ H2 H3).
  repeat constructor; auto using Qlt_le_weak.
Qed.

Lemma sampler_positions_witness :
  (unitDraws cyc /\ (Z.to_nat (3 * 10) <= 30)%nat)
  /\ exists out c',
      generatePointsFromTremas cyc 30 demoField 3 18%nat = (Some out, c')
      /\ Forall (fun v => -1 <= v /\ v <= 1) (positions out).
Proof.
  split; [split; [exact cyc_unit | lia]|].
  apply (sampler_positions cyc demoField 3 30 18%nat); [exact cyc_unit | lia].
Defined.

(** ** The field and the batch together *)

Lemma buildTremas_levels draws depth density baseRadius c :
  forall t, In t (fst (buildTremas draws depth density baseRadius c)) ->
            (0 <= level t < depth)%Z.
Proof.
  destruct (buildTremas_layout draws density baseRadius depth c) as [_ Hall].
  cbn zeta in Hall. rewrite Forall_forall in Hall.
  intros t Ht. now destruct (Hall t Ht).
Qed.

Lemma regenerate_run draws fuel depth density baseRadius samples c :
  regenerate draws fuel depth density baseRadius samples c
  = let b := buildTremas draws depth density baseRadius c in
    let g := generatePointsFromTremas draws fuel (fst b) (Qfloor samples) (snd b) in
    ((fst b, fst g), snd g).
Proof.
  unfold regenerate. rewrite !bind_run. reflexivity.
Qed.




(** A run of [regenerate] at depth 1 that keeps three points. *)
Example regenerate_flat_run :
  exists tremas out c',
    regenerate cyc 30 1 0.01 0.05 3 0%nat = ((tremas, Some out), c')
    /\ length tremas = 1%nat /\ length (levels out) = 3%nat.
Proof.
  eexists; eexists; eexists. split; [vm_compute; reflexivity|].
  split; reflexivity.
Qed.


(** ** The upload *)

(** X19.  After [uploadAndDraw] of a batch the sampler returned,
    [currentCount] is the number of points and the three buffers hold
    exactly that many vertices: the draw call stays within them. *)
Theorem upload_within draws tremas n fuel c :
  (Z.to_nat (n * 10) <= fuel)%nat ->
  exists out c',
    generatePointsFromTremas draws fuel tremas n c = (Some out, c')
    /\ drawWithin (uploadAndDraw out).
Proof.
  intros Hfuel.
  destruct (generatePoints_total draws tremas n fuel c Hfuel)
    as (cs & c' & Hrun & _).
  eexists; exists c'. split; [exact Hrun|].
  set (pts := map (sampleAt draws tremas) cs).
  exists (length pts). unfold uploadAndDraw.
  cbn [currentCount posBuffer colorBuffer levelBuffer positions colors levels
       flatten].
  rewrite flatPositions_length, flatColors_length, length_map.
  split; [|auto].
  rewrite Nat2Z.inj_mul, inject_Z_mult. change (inject_Z (Z.of_nat 2)) with 2.
  field.
Qed.

Lemma upload_within_witness :
  (Z.to_nat (3 * 10) <= 30)%nat
  /\ exists out c',
      generatePointsFromTremas cyc 30 demoField 3 18%nat = (Some out, c')
      /\ drawWithin (uploadAndDraw out).
Proof.
  split; [lia | apply (upload_within cyc demoField 3 30 18%nat); lia].
Defined.

(** ** The transform *)
(** * Properties in IEEE-754 arithmetic *)

(** ** Flat arrays *)

Lemma fl_flatten_lengths pts :
  IEEE.parallel (IEEE.flatten pts) (length pts).
Proof.
  unfold IEEE.parallel, IEEE.flatten. cbn [IEEE.positions IEEE.colors IEEE.levels].
  rewrite length_map. repeat split; induction pts; simpl in *; lia.
Qed.

Lemma fl_stored_lengths pts :
  IEEE.parallel (IEEE.stored pts) (length pts).
Proof.
  destruct (fl_flatten_lengths pts) as (H1 & H2 & H3).
  unfold IEEE.parallel, IEEE.stored, IEEE.Float32Array.
  cbn [IEEE.positions IEEE.colors IEEE.levels]. rewrite !length_map. auto.
Qed.

Lemma fl_flatten_snoc pts p :
  IEEE.flatten (pts ++ [p])
  = IEEE.mkBuffers
      (IEEE.positions (IEEE.flatten pts)
       ++ [fst (IEEE.position p); snd (IEEE.position p)])
      (IEEE.colors (IEEE.flatten pts)
       ++ [fst (fst (IEEE.color p)); snd (fst (IEEE.color p));
           snd (IEEE.color p)])
      (IEEE.levels (IEEE.flatten pts) ++ [IEEE.factor p]).
Proof.
  unfold IEEE.flatten. cbn [IEEE.positions IEEE.colors IEEE.levels].
  rewrite !flat_map_app, map_app. reflexivity.
Qed.

Lemma nth_error_pairs {A B} (f g : A -> B) (l : list A) k :
  nth_error (flat_map (fun a => [f a; g a]) l) (2 * k)
  = option_map f (nth_error l k)
  /\ nth_error (flat_map (fun a => [f a; g a]) l) (2 * k + 1)
     = option_map g (nth_error l k).
Proof.
  revert k. induction l as [|a l IH]; intros [|k].
  - split; reflexivity.
  - split; reflexivity.
  - split; reflexivity.
  - replace (2 * S k)%nat with (S (S (2 * k))) by lia.
    destruct (IH k) as [H0 H1]. split; simpl in *; assumption.
Qed.

Lemma nth_error_triples {A B} (f g h : A -> B) (l : list A) k :
  nth_error (flat_map (fun a => [f a; g a; h a]) l) (3 * k)
  = option_map f (nth_error l k)
  /\ nth_error (flat_map (fun a => [f a; g a; h a]) l) (3 * k + 1)
     = option_map g (nth_error l k)
  /\ nth_error (flat_map (fun a => [f a; g a; h a]) l) (3 * k + 2)
     = option_map h (nth_error l k).
Proof.
  revert k. induction l as [|a l IH]; intros [|k].
  - repeat split; reflexivity.
  - repeat split; reflexivity.
  - repeat split; reflexivity.
  - replace (3 * S k)%nat with (S (S (S (3 * k)))) by lia.
    destruct (IH k) as (H0 & H1 & H2). repeat split; simpl in *; assumption.
Qed.

(** ** The sampler's loop *)

Section FloatSampler.

Variable draws : nat -> float.
Variable tremas : list IEEE.Trema.
Variable samples : Z.

Lemma fl_sampleBody_run st c :
  IEEE.sampleBody draws tremas st c
  = if IEEE.insideAny (fst (IEEE.candidate draws c))
                      (snd (IEEE.candidate draws c)) tremas
    then (IEEE.mkLoop (IEEE.bufs st) (IEEE.attempts st + 1), (2 + c)%nat)
    else (let p := IEEE.sampleAt draws tremas c in
          IEEE.mkLoop
            (IEEE.mkBuffers
               (IEEE.positions (IEEE.bufs st)
                ++ [fst (IEEE.position p); snd (IEEE.position p)])
               (IEEE.colors (IEEE.bufs st)
                ++ [fst (fst (IEEE.color p)); snd (fst (IEEE.color p));
                    snd (IEEE.color p)])
               (IEEE.levels (IEEE.bufs st) ++ [IEEE.factor p]))
            (IEEE.attempts st + 1), (5 + c)%nat).
Proof.
  unfold IEEE.sampleBody, IEEE.randRange, IEEE.rand, Rand.bind, Rand.ret,
    IEEE.candidate.
  cbn [fst snd].
  destruct (IEEE.insideAny _ _ tremas); reflexivity.
Qed.

Lemma fl_sampleCond_true st pts :
  IEEE.bufs st = IEEE.flatten pts ->
  IEEE.sampleCond samples st = true <->
  (Z.of_nat (length pts) < samples)%Z /\ (IEEE.attempts st < samples * 10)%Z.
Proof.
  intros Hb. unfold IEEE.sampleCond.
  rewrite andb_true_iff, Qltb_lt, Z.ltb_lt, Hb.
  destruct (fl_flatten_lengths pts) as (-> & _ & _).
  assert (Hhalf : inject_Z (Z.of_nat (2 * length pts)) / 2
                  == inject_Z (Z.of_nat (length pts))).
  { rewrite Nat2Z.inj_mul, inject_Z_mult.
    change (inject_Z (Z.of_nat 2)) with 2. field. }
  rewrite Hhalf, <- Zlt_Qlt. reflexivity.
Qed.

Lemma fl_sampleTrace_init c0 :
  IEEE.sampleTrace draws tremas samples c0 IEEE.sampleInit c0.
Proof.
  exists [], []. cbn. repeat split; try constructor; lia.
Qed.

Lemma fl_sampleTrace_step c0 st c :
  IEEE.sampleTrace draws tremas samples c0 st c ->
  IEEE.sampleCond samples st = true ->
  IEEE.sampleTrace draws tremas samples c0
                   (fst (IEEE.sampleBody draws tremas st c))
                   (snd (IEEE.sampleBody draws tremas st c))
  /\ (Z.to_nat (samples * 10
                - IEEE.attempts (fst (IEEE.sampleBody draws tremas st c)))
      < Z.to_nat (samples * 10 - IEEE.attempts st))%nat.
Proof.
  intros (cs & rs & Hb & Hacc & Hrej & Hatt & Hc & Hs & Hrange & Hbud & Hn) Hcond.
  destruct (proj1 (fl_sampleCond_true st _ Hb) Hcond) as [Hlt Hbudget].
  rewrite length_map in Hlt.
  rewrite fl_sampleBody_run.
  destruct (IEEE.insideAny _ _ tremas) eqn:Hin; cbn [fst snd].
  - split; [|cbn [IEEE.attempts]; lia].
    exists cs, (rs ++ [c]). cbn [IEEE.attempts IEEE.bufs]. rewrite length_app.
    cbn [length]. repeat split; auto; try lia.
    + apply Forall_app. split; [exact Hrej | constructor; [exact Hin | constructor]].
    + eapply Forall_impl; [|exact Hrange]. cbn beta. intros; lia.
  - split; [|cbn [IEEE.attempts]; lia].
    exists (cs ++ [c]), rs. cbn [IEEE.attempts IEEE.bufs].
    rewrite map_app. cbn [map].
    rewrite fl_flatten_snoc, <- Hb, length_app. cbn [length].
    repeat split; auto; try lia.
    + apply Forall_app. split; [exact Hacc | constructor; [exact Hin | constructor]].
    + apply StronglySorted_snoc; [exact Hs|].
      eapply Forall_impl; [|exact Hrange]. cbn beta. intros; lia.
    + apply Forall_app. split.
      * eapply Forall_impl; [|exact Hrange]. cbn beta. intros; lia.
      * constructor; [lia | constructor].
Qed.

(** With fuel for [10 * samples] rounds the loop ends. *)
Lemma fl_sampleLoop_total fuel c :
  (Z.to_nat (samples * 10) <= fuel)%nat ->
  exists st c',
    IEEE.sampleLoop draws fuel tremas samples c = (Some st, c')
    /\ IEEE.sampleTrace draws tremas samples c st c'
    /\ IEEE.sampleCond samples st = false.
Proof.
  intros Hfuel. unfold IEEE.sampleLoop.
  apply (whileM_total (IEEE.sampleCond samples) (IEEE.sampleBody draws tremas)
           (IEEE.sampleTrace draws tremas samples c)
           (fun st => Z.to_nat (samples * 10 - IEEE.attempts st))).
  - apply fl_sampleTrace_step.
  - apply fl_sampleTrace_init.
  - cbn. rewrite Z.sub_0_r. exact Hfuel.
Qed.

(** The batch returned holds the binary32 roundings of the points accepted,
    which are the samples of candidates of the draw sequence, in the order
    drawn. *)
Lemma fl_generate_total fuel c :
  (Z.to_nat (samples * 10) <= fuel)%nat ->
  exists cs rs c',
    IEEE.generatePointsFromTremas draws fuel tremas samples c
    = (Some (IEEE.stored (map (IEEE.sampleAt draws tremas) cs)), c')
    /\ Forall (IEEE.accepted draws tremas) cs
    /\ Forall (IEEE.rejected draws tremas) rs
    /\ c' = (c + 5 * length cs + 2 * length rs)%nat
    /\ StronglySorted lt cs
    /\ Forall (fun k => (c <= k /\ k + 5 <= c')%nat) cs
    /\ (Z.of_nat (length cs) <= Z.max 0 samples)%Z.
Proof.
  intros Hfuel.
  destruct (fl_sampleLoop_total fuel c Hfuel)
    as (st & c' & Hrun & (cs & rs & Hb & Hacc & Hrej & _ & Hc & Hs & Hr & _ & Hn)
        & _).
  exists cs, rs, c'. unfold IEEE.generatePointsFromTremas.
  rewrite bind_run, Hrun. cbn [fst snd]. unfold Rand.ret, IEEE.stored.
  rewrite Hb. repeat split; assumption.
Qed.

End FloatSampler.

(** ** Reading a batch *)

Lemma fl_stored_point draws tremas cs k c :
  nth_error cs k = Some c ->
  IEEE.pointAt (IEEE.stored (map (IEEE.sampleAt draws tremas) cs)) k
               (IEEE.fround (fst (IEEE.candidate draws c)))
               (IEEE.fround (snd (IEEE.candidate draws c)))
  /\ IEEE.colorAt (IEEE.stored (map (IEEE.sampleAt draws tremas) cs)) k
                  (IEEE.fround (0.2 + 0.6 * draws (3 + c)%nat)%float)
                  (IEEE.fround (0.35 + 0.55 * draws (4 + c)%nat)%float)
                  (IEEE.fround (0.4 + 0.6 * draws (2 + c)%nat)%float)
  /\ IEEE.factorAt (IEEE.stored (map (IEEE.sampleAt draws tremas) cs)) k
                   (IEEE.fround
                      (IEEE.levelFactor (fst (IEEE.candidate draws c))
                                        (snd (IEEE.candidate draws c)) tremas)).
Proof.
  intros Hk.
  unfold IEEE.pointAt, IEEE.colorAt, IEEE.factorAt, IEEE.stored,
    IEEE.Float32Array, IEEE.flatten.
  cbn [IEEE.positions IEEE.colors IEEE.levels].
  rewrite !nth_error_map.
  destruct (nth_error_pairs (fun p => fst (IEEE.position p))
              (fun p => snd (IEEE.position p))
              (map (IEEE.sampleAt draws tremas) cs) k) as [-> ->].
  destruct (nth_error_triples (fun p => fst (fst (IEEE.color p)))
              (fun p => snd (fst (IEEE.color p))) (fun p => snd (IEEE.color p))
              (map (IEEE.sampleAt draws tremas) cs) k) as (-> & -> & ->).
  rewrite !nth_error_map, Hk. cbn. repeat split; reflexivity.
Qed.

(** ** The rejection scan *)

Lemma fl_insideAny_false x y tremas :
  IEEE.insideAny x y tremas = false ->
  forall t, In t tremas -> IEEE.passes x y t.
Proof.
  induction tremas as [|t ts IH]; cbn [IEEE.insideAny]; [intros _ t []|].
  unfold IEEE.passes, IEEE.dist2 in *.
  destruct (_ <? _)%float eqn:Hlt; [discriminate|].
  intros Hrest u [<-|Hu]; [exact Hlt | now apply IH].
Qed.

(** C1, as amended.  With fuel for the attempt budget the sampler returns
    a batch; its positions are the binary32 roundings of the candidates
    accepted, and every candidate accepted passes the test of the code
    against every circle of the field: the squared distance computed in
    double precision is not below the squared radius computed. *)
Theorem C1_accepted_pass draws tremas n fuel c :
  (Z.to_nat (n * 10) <= fuel)%nat ->
  exists cs c',
    IEEE.generatePointsFromTremas draws fuel tremas n c
    = (Some (IEEE.stored (map (IEEE.sampleAt draws tremas) cs)), c')
    /\ IEEE.containment draws tremas cs
    /\ forall k i,
        nth_error cs k = Some i ->
        IEEE.pointAt (IEEE.stored (map (IEEE.sampleAt draws tremas) cs)) k
                     (IEEE.fround (fst (IEEE.candidate draws i)))
                     (IEEE.fround (snd (IEEE.candidate draws i))).
Proof.
  intros Hfuel.
  destruct (fl_generate_total draws tremas n fuel c Hfuel)
    as (cs & rs & c' & Hrun & Hacc & _).
  exists cs, c'. split; [exact Hrun|]. split.
  - unfold IEEE.containment. eapply Forall_impl; [|exact Hacc]. cbn beta.
    intros i Hi. now apply fl_insideAny_false.
  - intros k i Hk. now apply (fl_stored_point draws tremas cs k i).
Qed.

Lemma C1_accepted_pass_witness :
  (Z.to_nat (1 * 10) <= 10)%nat
  /\ exists cs c',
      IEEE.generatePointsFromTremas IEEE.roundedDraws 10 IEEE.roundedField 1
                                    3%nat
      = (Some (IEEE.stored
                 (map (IEEE.sampleAt IEEE.roundedDraws IEEE.roundedField) cs)),
         c')
      /\ IEEE.containment IEEE.roundedDraws IEEE.roundedField cs
      /\ forall k i,
          nth_error cs k = Some i ->
          IEEE.pointAt
            (IEEE.stored
               (map (IEEE.sampleAt IEEE.roundedDraws IEEE.roundedField) cs))
            k
            (IEEE.fround (fst (IEEE.candidate IEEE.roundedDraws i)))
            (IEEE.fround (snd (IEEE.candidate IEEE.roundedDraws i))).
Proof.
  split; [lia|].
  apply (C1_accepted_pass IEEE.roundedDraws IEEE.roundedField 1 10 3%nat). lia.
Defined.

(** C1, as stated, fails: with draws in [0,1), [buildTremas] gives one
    circle of centre (0,0) and radius 0.5 + 2^-30; the candidate
    (0.5 + 2^-30 + 2^-52, 0) passes the test in double precision and is
    returned as (0.5, 0), at squared distance 0.25 from the centre, below the
    squared radius. *)
Lemma C1_counterexample :
  IEEE.buildTremas IEEE.roundedDraws 1 0.001 0x1.00000004p-1 0%nat
  = (Some IEEE.roundedField, 3%nat)
  /\ IEEE.generatePointsFromTremas IEEE.roundedDraws 10 IEEE.roundedField 1
                                   3%nat
     = (Some IEEE.roundedBatch, 8%nat)
  /\ ~ IEEE.containmentStated IEEE.roundedField IEEE.roundedBatch.
Proof.
  split; [vm_compute; reflexivity|]. split; [vm_compute; reflexivity|].
  intros H.
  specialize (H 0%nat 0.5%float 0%float (conj eq_refl eq_refl)
                (IEEE.mkTrema 0 0 0x1.00000004p-1 0) (or_introl eq_refl)).
  vm_compute in H. apply H. reflexivity.
Qed.




(** ** The builder's loops *)

Lemma forM_inv_below {St} (body : Z -> St -> Rand.M St)
      (P : Z -> St -> nat -> Prop) n :
  forall i s c,
    (forall j s' c', (i <= j < i + Z.of_nat n)%Z -> P j s' c' ->
                     P (j + 1)%Z (fst (body j s' c')) (snd (body j s' c'))) ->
    P i s c ->
    P (i + Z.of_nat n)%Z (fst (forM n i body s c)) (snd (forM n i body s c)).
Proof.
  induction n as [|n IH]; intros i s c Hbody HP.
  - simpl. now rewrite Z.add_0_r.
  - cbn [forM]. rewrite bind_run.
    replace (i + Z.of_nat (S n))%Z with ((i + 1) + Z.of_nat n)%Z by lia.
    apply IH.
    + intros j s' c' Hj. apply Hbody. lia.
    + apply Hbody; [lia | exact HP].
Qed.

Lemma blocks_total (cnt : Z -> nat) ls :
  Z.of_nat (length (flat_map (fun l => repeat l (cnt l)) ls))
  = fold_right Z.add 0%Z (map (fun l => Z.of_nat (cnt l)) ls).
Proof.
  induction ls as [|l ls IH]; cbn [flat_map map fold_right]; [reflexivity|].
  rewrite length_app, repeat_length, Nat2Z.inj_add, IH. reflexivity.
Qed.

Section FloatBuilder.

Variable draws : nat -> float.
Variable density baseRadius : float.

Lemma fl_pushLoop_run L LR n :
  forall i ts c,
    forM n i (fun _ t => IEEE.pushTrema draws L LR t) ts c
    = (ts ++ map (IEEE.tremaAt draws L LR) (strides 3 c n), (3 * n + c)%nat).
Proof.
  induction n as [|n IH]; intros i ts c; cbn [forM strides map].
  - unfold Rand.ret. rewrite app_nil_r. reflexivity.
  - rewrite bind_run.
    change (IEEE.pushTrema draws L LR ts c)
      with (ts ++ [IEEE.tremaAt draws L LR c], (3 + c)%nat).
    cbn [fst snd]. rewrite IH, <- app_assoc. cbn [app]. f_equal. lia.
Qed.

Lemma fl_buildLevel_run L n ts c :
  IEEE.rounds (IEEE.levelCount density L) = Some n ->
  IEEE.buildLevel draws density baseRadius L ts c
  = (Some (ts ++ map (IEEE.tremaAt draws L (IEEE.levelRadius baseRadius L))
                     (strides 3 c n)),
     (3 * n + c)%nat).
Proof.
  intros Hn. unfold IEEE.buildLevel. cbn zeta. rewrite Hn, bind_run.
  rewrite fl_pushLoop_run. reflexivity.
Qed.

Lemma fl_layout_succ (cnt : Z -> nat) L :
  (0 <= L)%Z ->
  IEEE.layout cnt (L + 1) = IEEE.layout cnt L ++ repeat L (cnt L).
Proof.
  intros HL. unfold IEEE.layout, levelsBelow.
  replace (Z.to_nat (L + 1)) with (S (Z.to_nat L)) by lia.
  rewrite seq_S, map_app, flat_map_app. cbn [map flat_map Nat.add].
  rewrite app_nil_r, Z2Nat.id by exact HL. reflexivity.
Qed.

(** When the loop of every level ends, so does [buildTremas]; the field is
    laid out level after level, and every circle of it was pushed by
    [pushTrema] at its own level. *)
Lemma fl_buildTremas_total (cnt : Z -> nat) depth c :
  (forall L, (0 <= L < depth)%Z ->
             IEEE.rounds (IEEE.levelCount density L) = Some (cnt L)) ->
  exists tremas c',
    IEEE.buildTremas draws depth density baseRadius c = (Some tremas, c')
    /\ map IEEE.level tremas = IEEE.layout cnt (Z.max 0 depth)
    /\ Forall (fun t => (0 <= IEEE.level t < depth)%Z
                        /\ exists i,
                            t = IEEE.tremaAt draws (IEEE.level t)
                                  (IEEE.levelRadius baseRadius (IEEE.level t)) i)
              tremas.
Proof.
  intros Hcnt. unfold IEEE.buildTremas, forUpto.
  set (body := fun (level : Z) (o : option (list IEEE.Trema)) =>
                 match o with
                 | Some tremas =>
                     IEEE.buildLevel draws density baseRadius level tremas
                 | None => Rand.ret None
                 end).
  pose (P := fun (L : Z) (o : option (list IEEE.Trema)) (_ : nat) =>
               (0 <= L)%Z
               /\ exists ts,
                   o = Some ts
                   /\ map IEEE.level ts = IEEE.layout cnt L
                   /\ Forall (fun t =>
                                (0 <= IEEE.level t < L)%Z
                                /\ exists i,
                                    t = IEEE.tremaAt draws (IEEE.level t)
                                          (IEEE.levelRadius baseRadius
                                                            (IEEE.level t)) i)
                             ts).
  assert (Hend : P (0 + Z.of_nat (Z.to_nat depth))%Z
                   (fst (forM (Z.to_nat depth) 0%Z body (Some []) c))
                   (snd (forM (Z.to_nat depth) 0%Z body (Some []) c))).
  { apply (forM_inv_below body P).
    - intros L o k HL (HL0 & ts & -> & Hlay & Hall). unfold body.
      rewrite (fl_buildLevel_run L (cnt L)) by (apply Hcnt; lia).
      cbn [fst snd]. split; [lia|]. eexists. split; [reflexivity|]. split.
      + rewrite map_app, Hlay, fl_layout_succ by exact HL0. f_equal.
        rewrite map_map. cbn [IEEE.level IEEE.tremaAt].
        generalize (cnt L) as m. clear. intros m. revert k.
        induction m as [|m IHm]; intros k; cbn; [reflexivity | now rewrite IHm].
      + apply Forall_app. split.
        * eapply Forall_impl; [|exact Hall]. cbn beta.
          intros t [Ht Hi]. split; [lia | exact Hi].
        * apply Forall_map, Forall_forall. intros i _.
          cbn [IEEE.level IEEE.tremaAt]. split; [lia | now exists i].
    - split; [lia|]. exists []. split; [reflexivity|].
      split; [reflexivity | constructor]. }
  destruct Hend as (_ & ts & Hrun & Hlay & Hall).
  exists ts, (snd (forM (Z.to_nat depth) 0%Z body (Some []) c)).
  split; [rewrite <- Hrun; apply surjective_pairing|]. split.
  - rewrite Hlay. f_equal. lia.
  - eapply Forall_impl; [|exact Hall]. cbn beta.
    intros t [Ht Hi]. split; [lia | exact Hi].
Qed.

End FloatBuilder.

Lemma fl_rounds_countOf density L z :
  IEEE.countOf density L z ->
  IEEE.rounds (IEEE.levelCount density L) = Some (Z.to_nat (Z.max 1 z)).
Proof.
  intros [Hfloor Hle]. unfold IEEE.levelCount. rewrite Hfloor.
  cbn [IEEE.Math_max1 IEEE.rounds].
  destruct (Z.leb_spec (Z.max 1 z) (2 ^ 53)); [reflexivity | lia].
Qed.

Lemma fl_atLevel_length L ts :
  length (IEEE.atLevel L ts)
  = length (filter (fun l => (l =? L)%Z) (map IEEE.level ts)).
Proof.
  unfold IEEE.atLevel. induction ts as [|t ts IH]; cbn [filter map];
    [reflexivity|].
  destruct (IEEE.level t =? L)%Z; cbn [length]; now rewrite IH.
Qed.

(** C2, as amended.  When, at every level L below [depth], the product
    density * 2^(L+1) * 30 computed in double precision is a finite number
    of floor z(L), and max(1, z(L)) is at most 2^53, [buildTremas] returns a
    field with max(1, z(L)) circles of level L for each of these levels, so
    as many circles as the sum of these counts. *)
Theorem C2_code_count draws depth density baseRadius (z : Z -> Z) c :
  (forall L, (0 <= L < depth)%Z -> IEEE.countOf density L (z L)) ->
  exists tremas c',
    IEEE.buildTremas draws depth density baseRadius c = (Some tremas, c')
    /\ Z.of_nat (length tremas)
       = fold_right Z.add 0%Z (map (fun L => Z.max 1 (z L)) (levelsBelow depth))
    /\ forall L, (0 <= L < depth)%Z ->
                 Z.of_nat (length (IEEE.atLevel L tremas)) = Z.max 1 (z L).
Proof.
  intros Hz.
  destruct (fl_buildTremas_total draws density baseRadius
              (fun L => Z.to_nat (Z.max 1 (z L))) depth c)
    as (tremas & c' & Hrun & Hlay & _).
  { intros L HL. apply fl_rounds_countOf, Hz, HL. }
  exists tremas, c'. split; [exact Hrun|]. split.
  - rewrite <- (length_map IEEE.level), Hlay. unfold IEEE.layout.
    rewrite blocks_total. unfold levelsBelow.
    replace (Z.to_nat (Z.max 0 depth)) with (Z.to_nat depth) by lia.
    f_equal. apply map_ext. intros L. lia.
  - intros L HL. rewrite fl_atLevel_length, Hlay.
    unfold IEEE.layout, levelsBelow. rewrite filter_blocks.
    destruct (Z.leb_spec (Z.of_nat 0) L);
      destruct (Z.ltb_spec L (Z.of_nat (0 + Z.to_nat (Z.max 0 depth))));
      cbn [andb]; lia.
Qed.

Lemma C2_code_count_witness :
  (forall L, (0 <= L < 1)%Z -> IEEE.countOf 0.7 L 42)
  /\ exists tremas c',
      IEEE.buildTremas (IEEE.drawsOf []) 1 0.7 0.18 0%nat = (Some tremas, c')
      /\ Z.of_nat (length tremas)
         = fold_right Z.add 0%Z (map (fun L => Z.max 1 42) (levelsBelow 1))
      /\ forall L, (0 <= L < 1)%Z ->
                   Z.of_nat (length (IEEE.atLevel L tremas)) = Z.max 1 42.
Proof.
  assert (H : forall L, (0 <= L < 1)%Z -> IEEE.countOf 0.7 L 42).
  { intros L HL. assert (L = 0%Z) as -> by lia.
    split; [vm_compute; reflexivity | vm_compute; discriminate]. }
  split; [exact H|].
  apply (C2_code_count (IEEE.drawsOf []) 1 0.7 0.18 (fun _ => 42%Z) 0%nat).
  exact H.
Defined.

(** C2, as stated, fails: at density 0.7 the product 0.7 * 2 * 30 is 42 in
    double precision, and 42 circles are built at level 0, while the floor
    of the exact product of the density by 60 is 41. *)
Lemma C2_counterexample :
  exists tremas c',
    IEEE.buildTremas (IEEE.drawsOf []) 1 0.7 0.18 0%nat = (Some tremas, c')
    /\ length tremas = 42%nat
    /\ specCount (IEEE.F2Q 0.7) 0 = 41%Z
    /\ ~ IEEE.countStated 1 0.7 tremas.
Proof.
  eexists; eexists. split; [vm_compute; reflexivity|].
  split; [reflexivity|]. split; [vm_compute; reflexivity|].
  intros H. vm_compute in H. discriminate H.
Qed.




(** ** The order of numbers *)

Lemma SFltb_rank f g :
  f <> S754_nan -> g <> S754_nan ->
  SFltb f g = true <-> IEEE.lexlt (IEEE.rank f) (IEEE.rank g).
Proof.
  intros Hf Hg. unfold SFltb.
  destruct f as [sf|sf| |sf mf ef], g as [sg|sg| |sg mg eg];
    try contradiction; try (destruct sf); try (destruct sg);
    cbn [SFcompare IEEE.rank IEEE.lexlt];
    try (split; [discriminate | lia]);
    try (split; [lia | reflexivity]);
    try (split; [reflexivity | lia]).
  - destruct (Z.compare_spec ef eg) as [->|He|He];
      [|split; [discriminate | lia] | split; [lia | reflexivity]].
    change (Pos.compare_cont Eq mf mg) with (Pos.compare mf mg).
    destruct (Pos.compare_spec mf mg); cbn [CompOpp];
      split; try discriminate; try reflexivity; lia.
  - destruct (Z.compare_spec ef eg) as [->|He|He];
      [|split; [lia | reflexivity] | split; [discriminate | lia]].
    change (Pos.compare_cont Eq mf mg) with (Pos.compare mf mg).
    destruct (Pos.compare_spec mf mg);
      split; try discriminate; try reflexivity; lia.
Qed.

Lemma fl_not_nan x : is_nan x = false -> Prim2SF x <> S754_nan.
Proof.
  unfold is_nan. rewrite negb_false_iff, eqb_spec. intros H Hnan.
  rewrite Hnan in H. discriminate H.
Qed.

Lemma fl_ltb_not_nan a b :
  (a <? b)%float = true -> Prim2SF a <> S754_nan /\ Prim2SF b <> S754_nan.
Proof.
  rewrite ltb_spec. unfold SFltb.
  destruct (Prim2SF a), (Prim2SF b); cbn [SFcompare]; intros H;
    split; congruence.
Qed.

Lemma fl_ltb_rank a b :
  Prim2SF a <> S754_nan -> Prim2SF b <> S754_nan ->
  (a <? b)%float = true
  <-> IEEE.lexlt (IEEE.rank (Prim2SF a)) (IEEE.rank (Prim2SF b)).
Proof. intros Ha Hb. rewrite ltb_spec. now apply SFltb_rank. Qed.

Lemma lexlt_trans a b c : IEEE.lexlt a b -> IEEE.lexlt b c -> IEEE.lexlt a c.
Proof.
  destruct a as [[a1 a2] a3], b as [[b1 b2] b3], c as [[c1 c2] c3].
  unfold IEEE.lexlt. lia.
Qed.

Lemma lexlt_total a b c : IEEE.lexlt a b -> ~ IEEE.lexlt c b -> IEEE.lexlt a c.
Proof.
  destruct a as [[a1 a2] a3], b as [[b1 b2] b3], c as [[c1 c2] c3].
  unfold IEEE.lexlt. lia.
Qed.

Lemma lexlt_irrefl a : ~ IEEE.lexlt a a.
Proof. destruct a as [[a1 a2] a3]. unfold IEEE.lexlt. lia. Qed.

Lemma fl_ltb_trans a b c :
  (a <? b)%float = true -> (b <? c)%float = true -> (a <? c)%float = true.
Proof.
  intros Hab Hbc.
  destruct (fl_ltb_not_nan _ _ Hab) as [Ha Hb].
  destruct (fl_ltb_not_nan _ _ Hbc) as [_ Hc].
  rewrite fl_ltb_rank in * by assumption. eapply lexlt_trans; eassumption.
Qed.

(** Below a bound that [c], a number, is not below. *)
Lemma fl_ltb_below a b c :
  (a <? b)%float = true -> (c <? b)%float = false -> is_nan c = false ->
  (a <? c)%float = true.
Proof.
  intros Hab Hcb Hc. apply fl_not_nan in Hc.
  destruct (fl_ltb_not_nan _ _ Hab) as [Ha Hb].
  rewrite <- not_true_iff_false in Hcb.
  rewrite fl_ltb_rank in * by assumption. eapply lexlt_total; eassumption.
Qed.

Lemma fl_ltb_irrefl a : (a <? a)%float = false.
Proof.
  apply not_true_iff_false. intros H.
  destruct (fl_ltb_not_nan _ _ H) as [Ha _].
  rewrite fl_ltb_rank in H by assumption. now apply lexlt_irrefl in H.
Qed.

(** ** The nearest-level scan *)

(** Over distances that are numbers: either no circle is below the starting
    bound and the scan returns what it started from, or it returns the
    distance and level of the nearest circle. *)
Lemma fl_nearestScan_spec x y ts :
  IEEE.comparable x y ts ->
  forall minD nl,
    (IEEE.nearestScan x y ts minD nl = (minD, nl)
     /\ forall t, In t ts -> (IEEE.dist2 x y t <? minD)%float = false)
    \/ exists k t,
        IEEE.nearest x y ts k t
        /\ (IEEE.dist2 x y t <? minD)%float = true
        /\ IEEE.nearestScan x y ts minD nl
           = (IEEE.dist2 x y t, IEEE.level t).
Proof.
  induction ts as [|c rest IH]; intros Hcmp minD nl; cbn [IEEE.nearestScan].
  - left. split; [reflexivity | intros t []].
  - assert (Hrest : IEEE.comparable x y rest)
      by (intros u Hu; apply Hcmp; now right).
    assert (Hc : is_nan (IEEE.dist2 x y c) = false)
      by (apply Hcmp; now left).
    destruct (IEEE.dist2 x y c <? minD)%float eqn:Hlt.
    + right.
      destruct (IH Hrest (IEEE.dist2 x y c) (IEEE.level c))
        as [[Hrun Hall] | (k & t & [Hk Hmin] & Hd & Hrun)].
      * exists 0%nat, c. split; [|split; [exact Hlt | exact Hrun]].
        split; [reflexivity|]. intros [|j] u Hu; cbn in Hu.
        -- injection Hu as <-. split; [apply fl_ltb_irrefl | lia].
        -- split; [|lia]. apply Hall. eapply nth_error_In; eassumption.
      * exists (S k), t. split; [|split; [|exact Hrun]].
        -- split; [exact Hk|]. intros [|j] u Hu; cbn in Hu.
           ++ injection Hu as <-. split; [|intros _; exact Hd].
              apply not_true_iff_false. intros Hcontra.
              pose proof (fl_ltb_trans _ _ _ Hd Hcontra) as Habs.
              rewrite fl_ltb_irrefl in Habs. discriminate.
           ++ destruct (Hmin j u Hu) as [Hle Hstrict].
              split; [exact Hle | intros; apply Hstrict; lia].
        -- eapply fl_ltb_trans; eassumption.
    + destruct (IH Hrest minD nl)
        as [[Hrun Hall] | (k & t & [Hk Hmin] & Hd & Hrun)].
      * left. split; [exact Hrun|].
        intros t [<-|Ht]; [exact Hlt | now apply Hall].
      * right. exists (S k), t. split; [|split; [exact Hd | exact Hrun]].
        split; [exact Hk|]. intros [|j] u Hu; cbn in Hu.
        -- injection Hu as <-.
           pose proof (fl_ltb_below _ _ _ Hd Hlt Hc) as Hlt'.
           split; [|intros _; exact Hlt'].
           apply not_true_iff_false. intros Hcontra.
           pose proof (fl_ltb_trans _ _ _ Hlt' Hcontra) as Habs.
           rewrite fl_ltb_irrefl in Habs. discriminate.
        -- destruct (Hmin j u Hu) as [Hle Hstrict].
           split; [exact Hle | intros; apply Hstrict; lia].
Qed.

Lemma fl_nearest_unique x y ts k t k' t' :
  IEEE.nearest x y ts k t -> IEEE.nearest x y ts k' t' -> k = k' /\ t = t'.
Proof.
  intros [Hk Hmin] [Hk' Hmin'].
  assert (k = k') as <-.
  { destruct (Nat.lt_trichotomy k k') as [Hlt|[Heq|Hgt]]; [|exact Heq|]; exfalso.
    - destruct (Hmin' k t Hk) as [_ Hs]. destruct (Hmin k' t' Hk') as [Hle _].
      rewrite (Hs Hlt) in Hle. discriminate.
    - destruct (Hmin k' t' Hk') as [_ Hs]. destruct (Hmin' k t Hk) as [Hle _].
      rewrite (Hs Hgt) in Hle. discriminate. }
  split; [reflexivity | congruence].
Qed.

Lemma fl_levelDivisor_top tremas m :
  IEEE.topLevel tremas m -> IEEE.levelDivisor tremas = Z.max 1 m.
Proof.
  intros [(t & Ht & Hm) Hmax]. unfold IEEE.levelDivisor. f_equal.
  pose proof (in_map IEEE.level _ _ Ht) as Hin. rewrite Hm in Hin.
  assert (Hall : forall z, In z (map IEEE.level tremas) -> (z <= m)%Z).
  { intros z Hz. apply in_map_iff in Hz. destruct Hz as (u & <- & Hu).
    now apply Hmax. }
  destruct (map IEEE.level tremas) as [|h l]; [destruct Hin|].
  destruct (spreadMax_spec l h) as (H1 & H2 & H3).
  apply Z.le_antisymm.
  - now apply Hall.
  - destruct Hin as [<-|Hin]; [exact H1 | now apply H2].
Qed.

Lemma fl_levelFactor_attribution x y tremas i t m :
  IEEE.nearest x y tremas i t -> IEEE.topLevel tremas m ->
  IEEE.comparable x y tremas ->
  (IEEE.dist2 x y t <? 1e9)%float = true ->
  IEEE.levelFactor x y tremas
  = (IEEE.Z2F (IEEE.level t) / IEEE.Z2F (Z.max 1 m))%float.
Proof.
  intros Hnear Htop Hcmp Hclose. unfold IEEE.levelFactor, IEEE.nearLevel.
  rewrite (fl_levelDivisor_top _ _ Htop).
  destruct (fl_nearestScan_spec x y tremas Hcmp 1e9%float 0%Z)
    as [[_ Hall] | (k & u & Hu & _ & ->)]; cbn [snd].
  - exfalso. destruct Hnear as [Hi _]. apply nth_error_In in Hi.
    rewrite (Hall _ Hi) in Hclose. discriminate.
  - destruct (fl_nearest_unique _ _ _ _ _ _ _ Hnear Hu) as [_ <-]. reflexivity.
Qed.




(** In the run of [tieField] the scan's conditions hold: the distances are
    numbers below 1e9, the nearest circle by computed distance is the first
    one, and the factor computed is 0. *)
Example tie_run :
  IEEE.nearest 0 0 IEEE.tieField 0 (IEEE.mkTrema 0x1p-20 0.75 0.01 0)
  /\ IEEE.comparable 0 0 IEEE.tieField
  /\ (IEEE.dist2 0 0 (IEEE.mkTrema 0x1p-20 0.75 0.01 0) <? 1e9)%float = true
  /\ IEEE.levelFactor 0 0 IEEE.tieField = 0%float.
Proof.
  split; [|split; [|split; vm_compute; reflexivity]].
  - split; [reflexivity|].
    intros [|[|[|j]]] u Hu; unfold IEEE.tieField in Hu; cbn in Hu;
      try discriminate; injection Hu as <-.
    + split; [vm_compute; reflexivity | lia].
    + split; [vm_compute; reflexivity | lia].
  - intros u [<-|[<-|[]]]; vm_compute; reflexivity.
Qed.

(** ** The trace of the sampler *)

Lemma fl_insideAny_true x y tremas :
  IEEE.insideAny x y tremas = true ->
  exists t, In t tremas /\ (IEEE.dist2 x y t <? IEEE.r t * IEEE.r t)%float = true.
Proof.
  induction tremas as [|t ts IH]; cbn [IEEE.insideAny]; [discriminate|].
  unfold IEEE.dist2 in *.
  destruct (_ <? _)%float eqn:Hlt.
  - intros _. exists t. split; [now left | exact Hlt].
  - intros H. destruct (IH H) as (u & Hu & Hin).
    exists u. split; [now right | exact Hin].
Qed.

(** X10.  The batch is made of candidates of the draw sequence, in the
    order they were drawn: it holds the binary32 roundings of the samples of
    the candidates at cursors [cs]; the cursors increase, and each lies
    within the draws read by the run. *)
Theorem fl_sampler_order draws tremas n fuel c :
  (Z.to_nat (n * 10) <= fuel)%nat ->
  exists cs c',
    IEEE.generatePointsFromTremas draws fuel tremas n c
    = (Some (IEEE.stored (map (IEEE.sampleAt draws tremas) cs)), c')
    /\ StronglySorted lt cs
    /\ Forall (fun k => (c <= k /\ k + 5 <= c')%nat) cs.
Proof.
  intros Hfuel.
  destruct (fl_generate_total draws tremas n fuel c Hfuel)
    as (cs & rs & c' & Hrun & _ & _ & _ & Hs & Hr & _).
  exists cs, c'. auto.
Qed.

Lemma fl_sampler_order_witness :
  (Z.to_nat (1 * 10) <= 10)%nat
  /\ exists cs c',
      IEEE.generatePointsFromTremas IEEE.tieDraws 10 IEEE.tieField 1 6%nat
      = (Some (IEEE.stored (map (IEEE.sampleAt IEEE.tieDraws IEEE.tieField) cs)),
         c')
      /\ StronglySorted lt cs
      /\ Forall (fun k => (6 <= k /\ k + 5 <= c')%nat) cs.
Proof.
  split; [lia|].
  apply (fl_sampler_order IEEE.tieDraws IEEE.tieField 1 10 6%nat). lia.
Defined.


